(** * Yeomangrok (CulturaLog): persistence adapter, metadata client,
      view/edit controller and debounced search

    A shallow embedding of the TypeScript sources
      - [types.ts]       (record types of the three categories),
      - [constants.ts]   (storage keys, API constants),
      - [services.ts]    ([tmdbService], [storageService]),
      - [App.tsx]        (the controller: save, delete, sorted listing),
      - [components.tsx] ([useDebounce], the star rating, the cards, the
                         three forms),
    together with a model of the browser facilities they call
    ([JSON.stringify] / [JSON.parse], [localStorage], [Date], [fetch],
    [encodeURIComponent], [Array.prototype.sort], timers).

    Conventions.
      - A React handler is a function from the state of the latest render
        to the next state; every handler call is one dispatched event.
      - A caught exception is a value of a sum type; [try]/[catch] is a
        [match].
      - [window.confirm], [crypto.randomUUID] and the network are inputs
        of the functions that consult them. *)

From Stdlib Require Import ZArith Ascii String DecimalString DecimalZ.
From stdpp Require Import gmap strings list fin_maps sorting.

#[local] Open Scope Z_scope.

(** ** ECMAScript values that JSON can carry *)

Module JSON.

(** Numbers are the integers (ratings, external ids, timestamps); an object
    is the sequence of its own enumerable properties in insertion order. *)
#[local] Set Warnings "-register-all".
Inductive json : Type :=
| JNull
| JBool (b : bool)
| JNum (n : Z)
| JStr (s : string)
| JArr (elems : list json)
| JObj (members : list (string * json)).

(** The quotation mark, U+0022. *)
Definition dquote : ascii := Ascii false true false false false true false false.

(** *** [JSON.stringify] *)

Definition hexdig (n : N) : ascii :=
  ascii_of_N (if (n <? 10)%N then 48 + n else 87 + n)%N.

(** QuoteJSONString, one code unit. *)
Definition escape_char (c : ascii) : string :=
  let n := N_of_ascii c in
  if (n =? 34)%N then String "\" (String dquote EmptyString)
  else if (n =? 92)%N then "\\"
  else if (n =? 8)%N then "\b"
  else if (n =? 9)%N then "\t"
  else if (n =? 10)%N then "\n"
  else if (n =? 12)%N then "\f"
  else if (n =? 13)%N then "\r"
  else if (n <? 32)%N then
    "\u00" +:+ String (hexdig (n / 16)) (String (hexdig (n mod 16)) EmptyString)
  else String c EmptyString.

Fixpoint escape (s : string) : string :=
  match s with
  | EmptyString => EmptyString
  | String c r => escape_char c +:+ escape r
  end.

Definition quote (s : string) : string :=
  String dquote (escape s +:+ String dquote EmptyString).

Definition print_Z (z : Z) : string := NilEmpty.string_of_int (Z.to_int z).

Fixpoint stringify (j : json) : string :=
  match j with
  | JNull => "null"
  | JBool true => "true"
  | JBool false => "false"
  | JNum n => print_Z n
  | JStr s => quote s
  | JArr l =>
      "[" +:+
      (fix elems (l : list json) : string :=
         match l with
         | [] => EmptyString
         | [x] => stringify x
         | x :: l' => stringify x +:+ "," +:+ elems l'
         end) l +:+ "]"
  | JObj l =>
      "{" +:+
      (fix members (l : list (string * json)) : string :=
         match l with
         | [] => EmptyString
         | [(k, x)] => quote k +:+ ":" +:+ stringify x
         | (k, x) :: l' => quote k +:+ ":" +:+ stringify x +:+ "," +:+ members l'
         end) l +:+ "}"
  end.

(** *** [JSON.parse] *)

Definition is_ws (c : ascii) : bool :=
  let n := N_of_ascii c in
  ((n =? 32) || (n =? 9) || (n =? 10) || (n =? 13))%N.

Fixpoint skip_ws (s : string) : string :=
  match s with
  | EmptyString => EmptyString
  | String c r => if is_ws c then skip_ws r else s
  end.

Definition is_numchar (c : ascii) : bool :=
  let n := N_of_ascii c in
  ((n =? 45) || ((48 <=? n) && (n <=? 57)))%N.

Fixpoint span_num (s : string) : string * string :=
  match s with
  | EmptyString => (EmptyString, EmptyString)
  | String c r =>
      if is_numchar c then let '(p, q) := span_num r in (String c p, q)
      else (EmptyString, s)
  end.

(** Integer literals: an optional minus sign and a decimal numeral without
    leading zeros.  A fraction or an exponent part is outside the fragment
    of numbers modelled here and is not accepted. *)
Definition parse_number (s : string) : option (Z * string) :=
  let '(p, r) := span_num s in
  if String.eqb p "-0" then Some (0, r)
  else
    match NilEmpty.int_of_string p with
    | Some d =>
        let z := Z.of_int d in
        if String.eqb (print_Z z) p then Some (z, r) else None
    | None => None
    end.

Definition hexval (c : ascii) : option N :=
  let n := N_of_ascii c in
  if ((48 <=? n) && (n <=? 57))%N then Some (n - 48)%N
  else if ((97 <=? n) && (n <=? 102))%N then Some (n - 87)%N
  else if ((65 <=? n) && (n <=? 70))%N then Some (n - 55)%N
  else None.

(** The bytes of a code unit given by a [\u] escape. *)
Definition utf8 (n : N) : string :=
  if (n <? 128)%N then String (ascii_of_N n) EmptyString
  else if (n <? 2048)%N then
    String (ascii_of_N (192 + n / 64)) (String (ascii_of_N (128 + n mod 64)) EmptyString)
  else
    String (ascii_of_N (224 + n / 4096))
      (String (ascii_of_N (128 + (n / 64) mod 64))
         (String (ascii_of_N (128 + n mod 64)) EmptyString)).

Definition unescape (e : ascii) : option ascii :=
  let n := N_of_ascii e in
  if (n =? 34)%N then Some dquote
  else if (n =? 92)%N then Some "\"%char
  else if (n =? 47)%N then Some "/"%char
  else if (n =? 98)%N then Some (ascii_of_N 8)
  else if (n =? 102)%N then Some (ascii_of_N 12)
  else if (n =? 110)%N then Some (ascii_of_N 10)
  else if (n =? 114)%N then Some (ascii_of_N 13)
  else if (n =? 116)%N then Some (ascii_of_N 9)
  else None.

Definition prepend (p : string) (o : option (string * string)) : option (string * string) :=
  match o with
  | Some (s, r) => Some (p +:+ s, r)
  | None => None
  end.

(** The characters of a string literal, after its opening quotation mark,
    up to and including the closing one. *)
Fixpoint parse_chars (s : string) : option (string * string) :=
  match s with
  | EmptyString => None
  | String c r =>
      let n := N_of_ascii c in
      if (n =? 34)%N then Some (EmptyString, r)
      else if (n =? 92)%N then
        match r with
        | EmptyString => None
        | String e r1 =>
            if (N_of_ascii e =? 117)%N then
              match r1 with
              | String h1 (String h2 (String h3 (String h4 r2))) =>
                  match hexval h1, hexval h2, hexval h3, hexval h4 with
                  | Some a, Some b, Some c', Some d =>
                      prepend (utf8 (((a * 16 + b) * 16 + c') * 16 + d)%N) (parse_chars r2)
                  | _, _, _, _ => None
                  end
              | _ => None
              end
            else
              match unescape e with
              | Some ch => prepend (String ch EmptyString) (parse_chars r1)
              | None => None
              end
        end
      else if (n <? 32)%N then None
      else prepend (String c EmptyString) (parse_chars r)
  end.

Fixpoint strip (lit s : string) : option string :=
  match lit, s with
  | EmptyString, _ => Some s
  | String a lit', String b s' => if Ascii.eqb a b then strip lit' s' else None
  | String _ _, EmptyString => None
  end.

Definition is_char (n : N) (c : ascii) : bool := (N_of_ascii c =? n)%N.

Fixpoint parse_value (fuel : nat) (s : string) : option (json * string) :=
  match fuel with
  | O => None
  | S fuel =>
      match skip_ws s with
      | EmptyString => None
      | String c r =>
          if is_char 110 c then
            match strip "ull" r with Some r' => Some (JNull, r') | None => None end
          else if is_char 116 c then
            match strip "rue" r with Some r' => Some (JBool true, r') | None => None end
          else if is_char 102 c then
            match strip "alse" r with Some r' => Some (JBool false, r') | None => None end
          else if is_char 34 c then
            match parse_chars r with Some (str, r') => Some (JStr str, r') | None => None end
          else if is_char 91 c then
            match skip_ws r with
            | EmptyString => None
            | String c' r' =>
                if is_char 93 c' then Some (JArr [], r')
                else
                  match parse_elems fuel (String c' r') with
                  | Some (l, r'') => Some (JArr l, r'')
                  | None => None
                  end
            end
          else if is_char 123 c then
            match skip_ws r with
            | EmptyString => None
            | String c' r' =>
                if is_char 125 c' then Some (JObj [], r')
                else
                  match parse_members fuel (String c' r') with
                  | Some (l, r'') => Some (JObj l, r'')
                  | None => None
                  end
            end
          else
            match parse_number (String c r) with
            | Some (z, r') => Some (JNum z, r')
            | None => None
            end
      end
  end
with parse_elems (fuel : nat) (s : string) : option (list json * string) :=
  match fuel with
  | O => None
  | S fuel =>
      match parse_value fuel s with
      | None => None
      | Some (v, r) =>
          match skip_ws r with
          | EmptyString => None
          | String c r' =>
              if is_char 44 c then
                match parse_elems fuel r' with
                | Some (vs, r'') => Some (v :: vs, r'')
                | None => None
                end
              else if is_char 93 c then Some ([v], r')
              else None
          end
      end
  end
with parse_members (fuel : nat) (s : string) : option (list (string * json) * string) :=
  match fuel with
  | O => None
  | S fuel =>
      match skip_ws s with
      | EmptyString => None
      | String q r =>
          if is_char 34 q then
            match parse_chars r with
            | None => None
            | Some (k, r1) =>
                match skip_ws r1 with
                | EmptyString => None
                | String c1 r2 =>
                    if is_char 58 c1 then
                      match parse_value fuel r2 with
                      | None => None
                      | Some (v, r3) =>
                          match skip_ws r3 with
                          | EmptyString => None
                          | String c3 r4 =>
                              if is_char 44 c3 then
                                match parse_members fuel r4 with
                                | Some (kvs, r5) => Some ((k, v) :: kvs, r5)
                                | None => None
                                end
                              else if is_char 125 c3 then Some ([(k, v)], r4)
                              else None
                          end
                      end
                    else None
                end
            end
          else None
      end
  end.

(** [JSON.parse text]: [None] stands for the [SyntaxError] it throws. *)
Definition parse (text : string) : option json :=
  match parse_value (String.length text) text with
  | Some (v, r) =>
      match skip_ws r with
      | EmptyString => Some v
      | String _ _ => None
      end
  | None => None
  end.

(** *** Measures and the induction principle used for the round trip *)

Definition starts_num (s : string) : bool :=
  match s with
  | String c _ => is_numchar c
  | EmptyString => false
  end.

(** A string of sign and digit characters only: [span_num] takes it whole
    off the front of any text that does not go on with such a character. *)
Definition all_num (s : string) : Prop :=
  ∀ t, starts_num t = false → span_num (s +:+ t) = (s, t).

Fixpoint size (j : json) : nat :=
  match j with
  | JArr l => S ((fix go (l : list json) : nat :=
                    match l with [] => 0 | x :: l' => S (size x + go l') end)%nat l)
  | JObj l => S ((fix go (l : list (string * json)) : nat :=
                    match l with [] => 0 | (_, x) :: l' => S (size x + go l') end)%nat l)
  | _ => 1%nat
  end.

Definition elems_size : list json → nat :=
  fix go (l : list json) : nat :=
    match l with [] => 0 | x :: l' => S (size x + go l') end%nat.

Definition members_size : list (string * json) → nat :=
  fix go (l : list (string * json)) : nat :=
    match l with [] => 0 | (_, x) :: l' => S (size x + go l') end%nat.

Definition elems_text : list json → string :=
  fix elems (l : list json) : string :=
    match l with
    | [] => EmptyString
    | [x] => stringify x
    | x :: l' => stringify x +:+ "," +:+ elems l'
    end.

Definition members_text : list (string * json) → string :=
  fix members (l : list (string * json)) : string :=
    match l with
    | [] => EmptyString
    | [(k, x)] => quote k +:+ ":" +:+ stringify x
    | (k, x) :: l' => quote k +:+ ":" +:+ stringify x +:+ "," +:+ members l'
    end.

(** [v] is read back from its text, whatever follows the text, as long as
    that does not extend a numeral. *)
Definition roundtrips (v : json) : Prop :=
  ∀ fuel rest, (size v ≤ fuel)%nat → starts_num rest = false →
    parse_value fuel (stringify v +:+ rest) = Some (v, rest).

Section json_nested_ind.
Variable P : json → Prop.
Hypothesis Hnull : P JNull.
Hypothesis Hbool : ∀ b, P (JBool b).
Hypothesis Hnum : ∀ n, P (JNum n).
Hypothesis Hstr : ∀ s, P (JStr s).
Hypothesis Harr : ∀ l, Forall P l → P (JArr l).
Hypothesis Hobj : ∀ l, Forall (λ kv, P kv.2) l → P (JObj l).

Fixpoint json_nested_ind (j : json) : P j :=
  match j with
  | JNull => Hnull
  | JBool b => Hbool b
  | JNum n => Hnum n
  | JStr s => Hstr s
  | JArr l =>
      Harr l ((fix go (l : list json) : Forall P l :=
                 match l with
                 | [] => Forall_nil_2 P
                 | x :: l' => Forall_cons_2 P x l' (json_nested_ind x) (go l')
                 end) l)
  | JObj l =>
      Hobj l ((fix go (l : list (string * json)) : Forall (λ kv, P kv.2) l :=
                 match l with
                 | [] => Forall_nil_2 _
                 | kv :: l' => Forall_cons_2 _ kv l' (json_nested_ind kv.2) (go l')
                 end) l)
  end.
End json_nested_ind.

End JSON.

(** ** The browser *)

Module Browser.
Import JSON.

(** *** Values and property access *)

(** What an expression may evaluate to: [undefined] or a JSON value. *)
Inductive value : Type :=
| undefined
| val (j : json).

(** The exceptions that the modelled calls can throw. *)
Inductive Error : Type :=
| TypeError
| SyntaxError
| URIError
| SecurityError
| QuotaExceededError
| GenericError (message : string).

(** The value of a property of an object literal: the last member with
    that key wins. *)
Fixpoint member (key : string) (l : list (string * json)) : option json :=
  match l with
  | [] => None
  | (k, v) :: l' =>
      match member key l' with
      | Some w => Some w
      | None => if String.eqb k key then Some v else None
      end
  end.

(** [o.key] for a key that is neither an array index nor a built-in
    property: reading from [null] throws, a primitive or an array has no
    such property. *)
Definition get_property (o : json) (key : string) : Error + value :=
  match o with
  | JNull => inl TypeError
  | JObj l => inr (match member key l with Some v => val v | None => undefined end)
  | _ => inr undefined
  end.

(** *** [localStorage] *)

(** The stored pairs, the quota of the origin (in code units, over keys and
    values) and whether access to the storage is denied. *)
Record Storage : Type := mkStorage {
  entries : gmap string string;
  quota : N;
  denied : bool
}.

Definition usage (m : gmap string string) : N :=
  map_fold (λ k v n, N.of_nat (String.length k) + N.of_nat (String.length v) + n)%N 0%N m.

Definition getItem (ls : Storage) (key : string) : Error + option string :=
  if denied ls then inl SecurityError else inr (entries ls !! key).

Definition setItem (ls : Storage) (key value : string) : Error + Storage :=
  if denied ls then inl SecurityError
  else
    let m := <[key := value]> (entries ls) in
    if (usage m <=? quota ls)%N
    then inr (mkStorage m (quota ls) (denied ls))
    else inl QuotaExceededError.

(** Whether the storage takes a write. *)
Definition accepts (ls : Storage) (key value : string) : bool :=
  negb (denied ls) && (usage (<[key := value]> (entries ls)) <=? quota ls)%N.

(** *** [Date] *)

(** A number that may be [NaN]. *)
Definition Number : Type := option Z.
Definition NaN : Number := None.

Definition Number_sub (x y : Number) : Number :=
  match x, y with
  | Some a, Some b => Some (a - b)
  | _, _ => NaN
  end.

Definition digit (c : ascii) : option Z :=
  let n := Z.of_N (N_of_ascii c) in
  if (48 <=? n) && (n <=? 57) then Some (n - 48) else None.

Definition is_leap (y : Z) : bool :=
  ((y mod 4 =? 0) && negb (y mod 100 =? 0)) || (y mod 400 =? 0).

Definition days_in_month (y m : Z) : Z :=
  if m =? 2 then (if is_leap y then 29 else 28)
  else if (m =? 4) || (m =? 6) || (m =? 9) || (m =? 11) then 30
  else 31.

(** Days from 1970-01-01 to the given day of the proleptic Gregorian
    calendar. *)
Definition days_from_civil (y m d : Z) : Z :=
  let y' := if m <=? 2 then y - 1 else y in
  let era := y' / 400 in
  let yoe := y' - era * 400 in
  let doy := (153 * (if 2 <? m then m - 3 else m + 9) + 2) / 5 + d - 1 in
  let doe := yoe * 365 + yoe / 4 - yoe / 100 + doy in
  era * 146097 + doe - 719468.

(** The year, month and day that a string of the date-only form
    [YYYY-MM-DD] names, when they are a day of the calendar. *)
Definition calendar_date (s : string) : option (Z * Z * Z) :=
  match s with
  | String y1 (String y2 (String y3 (String y4 (String s1
      (String m1 (String m2 (String s2 (String d1 (String d2 EmptyString))))))))) =>
      match digit y1, digit y2, digit y3, digit y4,
            digit m1, digit m2, digit d1, digit d2 with
      | Some a, Some b, Some c, Some e, Some f, Some g, Some h, Some i =>
          let y := ((a * 10 + b) * 10 + c) * 10 + e in
          let m := f * 10 + g in
          let d := h * 10 + i in
          if Ascii.eqb s1 "-" && Ascii.eqb s2 "-"
             && (1 <=? m) && (m <=? 12) && (1 <=? d) && (d <=? days_in_month y m)
          then Some (y, m, d)
          else None
      | _, _, _, _, _, _, _, _ => None
      end
  | _ => None
  end.

(** [new Date(s).getTime()] for the date-only form, the form an
    [<input type="date">] produces: midnight UTC in milliseconds.
    Anything else gives [NaN] (the other accepted forms are outside the
    fragment modelled here). *)
Definition Date_getTime (s : string) : Number :=
  match calendar_date s with
  | Some (y, m, d) => Some (days_from_civil y m d * 86400000)
  | None => NaN
  end.

(** One day of the calendar before another. *)
Definition earlier (c1 c2 : Z * Z * Z) : Prop :=
  let '(y1, m1, d1) := c1 in
  let '(y2, m2, d2) := c2 in
  y1 < y2 ∨ (y1 = y2 ∧ (m1 < m2 ∨ (m1 = m2 ∧ d1 < d2))).

(** A month of the calendar and a day of that month. *)
Definition valid_day (c : Z * Z * Z) : Prop :=
  let '(y, m, d) := c in 1 ≤ m ≤ 12 ∧ 1 ≤ d ≤ days_in_month y m.

(** [days_from_civil] counts in years that start in March: the year a
    month falls in, the day within that year, and the days before it. *)
Definition march_year (y m : Z) : Z := if m <=? 2 then y - 1 else y.
Definition march_day (m d : Z) : Z :=
  (153 * (if 2 <? m then m - 3 else m + 9) + 2) / 5 + d - 1.
Definition days_before (Y : Z) : Z := 365 * Y + Y / 4 - Y / 100 + Y / 400.

(** *** [Array.prototype.sort] *)

Section Sort.
Context {A : Type} (comparefn : A → A → Number).

(** SortCompare: a [NaN] from the comparison function counts as [+0]. *)
Definition SortCompare (x y : A) : Z :=
  match comparefn x y with
  | Some v => v
  | None => 0
  end.

(** [x] comes from the left of the already sorted [l]: it moves right
    only past elements that must precede it. *)
Fixpoint sort_insert (x : A) (l : list A) : list A :=
  match l with
  | [] => [x]
  | y :: l' =>
      if 0 <? SortCompare x y then y :: sort_insert x l'
      else x :: y :: l'
  end.

(** The sort is stable; for a consistent comparison function its result
    is determined by that alone, and a stable insertion sort computes
    it. *)
Definition Array_sort (l : list A) : list A := foldr sort_insert [] l.
End Sort.

(** *** [encodeURIComponent] *)

(** A string is held as bytes: UTF-8, in which an unpaired surrogate of
    the UTF-16 original shows as the three bytes [ED A0..BF xx]. *)
Definition uri_unreserved (c : ascii) : bool :=
  let n := N_of_ascii c in
  (((48 <=? n) && (n <=? 57)) || ((65 <=? n) && (n <=? 90)) || ((97 <=? n) && (n <=? 122))
   || (n =? 45) || (n =? 95) || (n =? 46) || (n =? 33) || (n =? 126)
   || (n =? 42) || (n =? 39) || (n =? 40) || (n =? 41))%N.

Definition HEXDIG (n : N) : ascii :=
  ascii_of_N (if (n <? 10)%N then 48 + n else 55 + n)%N.

Definition percent (c : ascii) : string :=
  let n := N_of_ascii c in
  String "%" (String (HEXDIG (n / 16)) (String (HEXDIG (n mod 16)) EmptyString)).

Definition is_surrogate_lead (c d : ascii) : bool :=
  ((N_of_ascii c =? 237) && (160 <=? N_of_ascii d))%N.

Fixpoint encodeURIComponent (s : string) : Error + string :=
  match s with
  | EmptyString => inr EmptyString
  | String c r =>
      if uri_unreserved c then
        match encodeURIComponent r with
        | inr e => inr (String c e)
        | inl err => inl err
        end
      else if match r with String d _ => is_surrogate_lead c d | EmptyString => false end
      then inl URIError
      else
        match encodeURIComponent r with
        | inr e => inr (percent c +:+ e)
        | inl err => inl err
        end
  end.

(** *** [fetch] *)

(** The outcome of one request: the promise rejects, or resolves to a
    response with its [ok] flag and the text of its body. *)
Inductive FetchResult : Type :=
| NetworkFailure
| Response (ok : bool) (body : string).

(** The network: which outcome a request to a URL has. *)
Definition Network : Type := string → FetchResult.

End Browser.

(** ** types.ts *)

Module Types.
Import JSON.

Inductive ActivityType : Type := movie | book | event.

#[global] Instance ActivityType_eq_dec : EqDecision ActivityType.
Proof. solve_decision. Defined.

Record BaseActivity : Type := mkBase {
  id : string;
  title : string;
  review : string;
  rating : Z;
  date : string
}.

(** [interface Movie extends BaseActivity]; the discriminant
    [type: 'movie'] is the type itself. *)
Record Movie : Type := mkMovie {
  Movie_base :> BaseActivity;
  releaseYear : string;
  posterPath : option string;
  tmdbId : Z
}.

Record Book : Type := mkBook {
  Book_base :> BaseActivity;
  author : string;
  isbn : string
}.

Record Event : Type := mkEvent {
  Event_base :> BaseActivity;
  venue : string
}.

(** [type Activity = Movie | Book | Event]. *)
Inductive Activity : Type :=
| AMovie (m : Movie)
| ABook (b : Book)
| AEvent (e : Event).

Definition Activity_base (a : Activity) : BaseActivity :=
  match a with
  | AMovie m => m
  | ABook b => b
  | AEvent e => e
  end.
Coercion Activity_base : Activity >-> BaseActivity.

(** The [type] property. *)
Definition type (a : Activity) : ActivityType :=
  match a with
  | AMovie _ => movie
  | ABook _ => book
  | AEvent _ => event
  end.

Definition type_name (t : ActivityType) : string :=
  match t with
  | movie => "movie"
  | book => "book"
  | event => "event"
  end.

(** The three record types have the base properties in common. *)
Class Item (T : Type) : Type := {
  base : T → BaseActivity;
  to_json : T → json;
  of_json : json → option T
}.

(** *** The objects as [JSON.stringify] sees them

    Property order is the order in which the forms build the object:
    the form fields, then [id], then [type]. *)

Definition Movie_to_json (m : Movie) : json :=
  JObj [("title", JStr (title m)); ("releaseYear", JStr (releaseYear m));
        ("posterPath", match posterPath m with Some p => JStr p | None => JNull end);
        ("tmdbId", JNum (tmdbId m)); ("review", JStr (review m));
        ("rating", JNum (rating m)); ("date", JStr (date m));
        ("id", JStr (id m)); ("type", JStr "movie")].

Definition Book_to_json (b : Book) : json :=
  JObj [("title", JStr (title b)); ("author", JStr (author b)); ("isbn", JStr (isbn b));
        ("review", JStr (review b)); ("rating", JNum (rating b)); ("date", JStr (date b));
        ("id", JStr (id b)); ("type", JStr "book")].

Definition Event_to_json (e : Event) : json :=
  JObj [("title", JStr (title e)); ("venue", JStr (venue e));
        ("review", JStr (review e)); ("rating", JNum (rating e)); ("date", JStr (date e));
        ("id", JStr (id e)); ("type", JStr "event")].

(** *** Whether a value has the declared shape

    TypeScript's types are structural: a value is a [Movie] when it is an
    object whose properties of those names have those types. *)

Definition str_prop (key : string) (j : json) : option string :=
  match j with
  | JObj l => match Browser.member key l with Some (JStr s) => Some s | _ => None end
  | _ => None
  end.

Definition num_prop (key : string) (j : json) : option Z :=
  match j with
  | JObj l => match Browser.member key l with Some (JNum n) => Some n | _ => None end
  | _ => None
  end.

Definition nullable_str_prop (key : string) (j : json) : option (option string) :=
  match j with
  | JObj l =>
      match Browser.member key l with
      | Some (JStr s) => Some (Some s)
      | Some JNull => Some None
      | _ => None
      end
  | _ => None
  end.

Definition Base_of_json (tag : string) (j : json) : option BaseActivity :=
  i ← str_prop "id" j; t ← str_prop "title" j; r ← str_prop "review" j;
  n ← num_prop "rating" j; d ← str_prop "date" j; ty ← str_prop "type" j;
  if String.eqb ty tag then Some (mkBase i t r n d) else None.

Definition Movie_of_json (j : json) : option Movie :=
  b ← Base_of_json "movie" j; y ← str_prop "releaseYear" j;
  p ← nullable_str_prop "posterPath" j; n ← num_prop "tmdbId" j;
  Some (mkMovie b y p n).

Definition Book_of_json (j : json) : option Book :=
  b ← Base_of_json "book" j; a ← str_prop "author" j; i ← str_prop "isbn" j;
  Some (mkBook b a i).

Definition Event_of_json (j : json) : option Event :=
  b ← Base_of_json "event" j; v ← str_prop "venue" j;
  Some (mkEvent b v).

Definition Activity_to_json (a : Activity) : json :=
  match a with
  | AMovie m => Movie_to_json m
  | ABook b => Book_to_json b
  | AEvent e => Event_to_json e
  end.

Definition Activity_of_json (j : json) : option Activity :=
  match Movie_of_json j, Book_of_json j, Event_of_json j with
  | Some m, _, _ => Some (AMovie m)
  | None, Some b, _ => Some (ABook b)
  | None, None, Some e => Some (AEvent e)
  | None, None, None => None
  end.

#[global] Instance Activity_Item : Item Activity :=
  {| base := Activity_base; to_json := Activity_to_json; of_json := Activity_of_json |}.
#[global] Instance Movie_Item : Item Movie :=
  {| base := Movie_base;
     to_json := Movie_to_json; of_json := Movie_of_json |}.
#[global] Instance Book_Item : Item Book :=
  {| base := Book_base;
     to_json := Book_to_json; of_json := Book_of_json |}.
#[global] Instance Event_Item : Item Event :=
  {| base := Event_base;
     to_json := Event_to_json; of_json := Event_of_json |}.

(** A collection as a value, and the shape [T[]]. *)
Definition collection `{Item T} (items : list T) : json := JArr (to_json <$> items).

Definition has_shape (T : Type) `{Item T} (j : json) : bool :=
  match j with
  | JArr l => forallb (λ x, bool_decide (is_Some (of_json (T := T) x))) l
  | _ => false
  end.

End Types.

(** ** constants.ts *)

Module Constants.

(** The value the repository ships; the file asks for it to be replaced by
    a real key, so the client below takes the key as an argument. *)
Definition TMDB_API_KEY : string := "YOUR_TMDB_API_KEY_HERE".

Definition TMDB_API_BASE_URL : string := "https://api.themoviedb.org/3".
Definition TMDB_IMAGE_BASE_URL : string := "https://image.tmdb.org/t/p/w500".

Definition STORAGE_KEY_MOVIES : string := "culturaLog_movies".
Definition STORAGE_KEY_BOOKS : string := "culturaLog_books".
Definition STORAGE_KEY_EVENTS : string := "culturaLog_events".

End Constants.

(** ** services.ts *)

Module Services.
Import JSON Browser Types.

(** *** Computations that issue requests and may throw

    The state is the list of the URLs requested so far. *)
Definition Eff (A : Type) : Type := list string → list string * (Error + A).

#[global] Instance Eff_ret : MRet Eff := λ A x reqs, (reqs, inr x).
#[global] Instance Eff_bind : MBind Eff := λ A B k m reqs,
  match m reqs with
  | (reqs', inl e) => (reqs', inl e)
  | (reqs', inr x) => k x reqs'
  end.

Definition throw {A} (e : Error) : Eff A := λ reqs, (reqs, inl e).

Definition lift {A} (r : Error + A) : Eff A :=
  match r with
  | inl e => throw e
  | inr x => mret x
  end.

Definition try_catch {A} (body : Eff A) (handler : Error → Eff A) : Eff A := λ reqs,
  match body reqs with
  | (reqs', inl e) => handler e reqs'
  | (reqs', inr x) => (reqs', inr x)
  end.

(** [await fetch(url)]: one more request; a rejection is a [TypeError]. *)
Definition fetch (net : Network) (url : string) : Eff (bool * string) := λ reqs,
  (reqs ++ [url],
   match net url with
   | NetworkFailure => inl TypeError
   | Response ok body => inr (ok, body)
   end).

(** [await response.json()]. *)
Definition Response_json (body : string) : Eff json :=
  match JSON.parse body with
  | Some data => mret data
  | None => throw SyntaxError
  end.

(** What an [async] function settles to when called with no request issued
    yet, and the requests it issued. *)
Definition settle {A} (m : Eff A) : list string * (Error + A) := m [].

(** [!s] is false exactly for a non-empty string. *)
Definition truthy (s : string) : bool :=
  match s with
  | EmptyString => false
  | String _ _ => true
  end.

(** *** [tmdbService] *)

(** The URL of a search, given the encoded query. *)
Definition search_url (TMDB_API_KEY q : string) : string :=
  Constants.TMDB_API_BASE_URL +:+ "/search/movie?api_key=" +:+ TMDB_API_KEY
    +:+ "&query=" +:+ q.

Definition searchMovies (TMDB_API_KEY : string) (net : Network) (query : string)
  : Eff value :=
  if negb (truthy query) || String.eqb TMDB_API_KEY "YOUR_TMDB_API_KEY_HERE" then
    mret (val (JArr []))
  else
    try_catch
      (q ← lift (encodeURIComponent query);
       response ← fetch net (search_url TMDB_API_KEY q);
       if negb response.1 then throw (GenericError "Failed to fetch from TMDB API")
       else
         data ← Response_json response.2;
         lift (get_property data "results"))
      (λ error, mret (val (JArr []))).

(** *** [storageService] *)

(** The [console.error] calls of the two [catch] blocks are not part of
    the model. *)
Definition getItemsFromStorage (key : string) (ls : Storage) : json :=
  match getItem ls key with
  | inl error => JArr []
  | inr None => JArr []
  | inr (Some itemsJson) =>
      if truthy itemsJson then
        match JSON.parse itemsJson with
        | Some items => items
        | None => JArr []
        end
      else JArr []
  end.

Definition saveItemsToStorage (key : string) (items : json) (ls : Storage) : Storage :=
  match setItem ls key (JSON.stringify items) with
  | inr ls' => ls'
  | inl error => ls
  end.

Definition getMovies : Storage → json := getItemsFromStorage Constants.STORAGE_KEY_MOVIES.
Definition saveMovies (movies : list Movie) : Storage → Storage :=
  saveItemsToStorage Constants.STORAGE_KEY_MOVIES (collection movies).

Definition getBooks : Storage → json := getItemsFromStorage Constants.STORAGE_KEY_BOOKS.
Definition saveBooks (books : list Book) : Storage → Storage :=
  saveItemsToStorage Constants.STORAGE_KEY_BOOKS (collection books).

Definition getEvents : Storage → json := getItemsFromStorage Constants.STORAGE_KEY_EVENTS.
Definition saveEvents (events : list Event) : Storage → Storage :=
  saveItemsToStorage Constants.STORAGE_KEY_EVENTS (collection events).

End Services.

(** ** components.tsx *)

Module Components.
Import Types.
Import Services (truthy).

(** *** [useDebounce] and the search effect of [MovieForm]

    The part of a mounted [MovieForm] that decides when
    [tmdbService.searchMovies] is called: the [searchQuery] state, the
    [debouncedValue] state of [useDebounce], the pending timeout of its
    effect (milliseconds left, and the value its callback captured) and
    the queries passed to [searchMovies] so far. *)
Record Search : Type := mkSearch {
  searchQuery : string;
  debouncedValue : string;
  handler : option (nat * string);
  searched : list string
}.

(** Mounting: both states start at [''], the effect of [useDebounce] arms
    a timeout, the search effect runs with [''] and calls nothing. *)
Definition mount (delay : nat) : Search :=
  mkSearch "" "" (Some (delay, "")) [].

(** [onChange] of the search field, [setSearchQuery(v)]: an unchanged
    value causes no render; a changed one re-renders, and since [value] is
    a dependency of the effect of [useDebounce], its cleanup clears the
    pending timeout ([clearTimeout(handler)]) and the effect arms a new one
    ([setTimeout(..., delay)]). *)
Definition setSearchQuery (delay : nat) (v : string) (s : Search) : Search :=
  if decide (v = searchQuery s) then s
  else mkSearch v (debouncedValue s) (Some (delay, v)) (searched s).

(** The [search] function of the effect of [MovieForm]:
    [if (debouncedSearchQuery) ... tmdbService.searchMovies(debouncedSearchQuery)]. *)
Definition search (debouncedSearchQuery : string) (searched : list string) : list string :=
  if truthy debouncedSearchQuery then searched ++ [debouncedSearchQuery] else searched.

(** [setDebouncedValue(v)]: an unchanged value causes no render; a changed
    one re-renders, and the search effect, which depends on it, runs. *)
Definition setDebouncedValue (v : string) (s : Search) : Search :=
  if decide (v = debouncedValue s) then s
  else mkSearch (searchQuery s) v (handler s) (search v (searched s)).

(** The timeout fires: it is no longer pending, and its callback runs. *)
Definition timeout (v : string) (s : Search) : Search :=
  setDebouncedValue v (mkSearch (searchQuery s) (debouncedValue s) None (searched s)).

(** [dt] milliseconds pass with no input. *)
Definition elapse (dt : nat) (s : Search) : Search :=
  match handler s with
  | None => s
  | Some (remaining, v) =>
      if (remaining <=? dt)%nat then timeout v s
      else mkSearch (searchQuery s) (debouncedValue s) (Some (remaining - dt, v)%nat)
             (searched s)
  end.

Inductive SearchEvent : Type :=
| Change (v : string)
| Elapse (dt : nat).

Definition step (delay : nat) (s : Search) (e : SearchEvent) : Search :=
  match e with
  | Change v => setSearchQuery delay v s
  | Elapse dt => elapse dt s
  end.

Definition run (delay : nat) (es : list SearchEvent) (s : Search) : Search :=
  foldl (step delay) s es.

(** [useDebounce(searchQuery, 500)]. *)
Definition MovieForm_delay : nat := 500.

(** A burst of typing: a first change, then further changes each after a
    gap, then a pause. *)
Definition typing (first : string) (more : list (nat * string)) (pause : nat)
  : list SearchEvent :=
  Change first :: flat_map (λ gv, [Elapse gv.1; Change gv.2]) more ++ [Elapse pause].

Definition final_query (first : string) (more : list (nat * string)) : string :=
  default first (last (first :: (snd <$> more))).

(** Every entry of the burst changes the text of the field. *)
Fixpoint all_changes (current : string) (vs : list string) : Prop :=
  match vs with
  | [] => True
  | v :: vs' => v ≠ current ∧ all_changes v vs'
  end.

(** *** The forms *)

(** The fields all three forms edit. *)
Record BaseFields : Type := mkFields {
  f_title : string;
  f_review : string;
  f_rating : Z;
  f_date : string
}.

(** [Omit<Movie, 'id' | 'type'>], and likewise for the other two. *)
Record MovieFormData : Type := mkMovieFormData {
  MovieFormData_base :> BaseFields;
  f_releaseYear : string;
  f_posterPath : option string;
  f_tmdbId : Z
}.

Record BookFormData : Type := mkBookFormData {
  BookFormData_base :> BaseFields;
  f_author : string;
  f_isbn : string
}.

Record EventFormData : Type := mkEventFormData {
  EventFormData_base :> BaseFields;
  f_venue : string
}.

(** The content of the fields of whichever form is shown. *)
Inductive FormData : Type :=
| MovieData (d : MovieFormData)
| BookData (d : BookFormData)
| EventData (d : EventFormData).

Definition fields_of (b : BaseActivity) : BaseFields :=
  mkFields (title b) (review b) (rating b) (date b).

(** The initial [formData]: a copy of [itemToEdit], or the defaults with
    today's date. *)
Definition MovieForm_formData (itemToEdit : option Movie) (today : string) : MovieFormData :=
  match itemToEdit with
  | Some i => mkMovieFormData (fields_of i) (releaseYear i) (posterPath i) (tmdbId i)
  | None => mkMovieFormData (mkFields "" "" 0 today) "" None 0
  end.

Definition BookForm_formData (itemToEdit : option Book) (today : string) : BookFormData :=
  match itemToEdit with
  | Some i => mkBookFormData (fields_of i) (author i) (isbn i)
  | None => mkBookFormData (mkFields "" "" 0 today) "" ""
  end.

Definition EventForm_formData (itemToEdit : option Event) (today : string) : EventFormData :=
  match itemToEdit with
  | Some i => mkEventFormData (fields_of i) (venue i)
  | None => mkEventFormData (mkFields "" "" 0 today) ""
  end.

(** [itemToEdit?.id || crypto.randomUUID()], given what [randomUUID] would
    return. *)
Definition final_id (itemToEdit : option BaseActivity) (randomUUID : string) : string :=
  match itemToEdit with
  | Some i => if truthy (id i) then id i else randomUUID
  | None => randomUUID
  end.

Definition final_base (itemToEdit : option BaseActivity) (f : BaseFields)
    (randomUUID : string) : BaseActivity :=
  mkBase (final_id itemToEdit randomUUID) (f_title f) (f_review f) (f_rating f) (f_date f).

(** [handleSubmit] of each form: the item handed to [onSave]. *)
Definition MovieForm_handleSubmit (itemToEdit : option Movie) (formData : MovieFormData)
    (randomUUID : string) : Movie :=
  mkMovie (final_base (Movie_base <$> itemToEdit) formData randomUUID)
    (f_releaseYear formData) (f_posterPath formData) (f_tmdbId formData).

Definition BookForm_handleSubmit (itemToEdit : option Book) (formData : BookFormData)
    (randomUUID : string) : Book :=
  mkBook (final_base (Book_base <$> itemToEdit) formData randomUUID)
    (f_author formData) (f_isbn formData).

Definition EventForm_handleSubmit (itemToEdit : option Event) (formData : EventFormData)
    (randomUUID : string) : Event :=
  mkEvent (final_base (Event_base <$> itemToEdit) formData randomUUID)
    (f_venue formData).

(** *** [StarRating] *)

(** [Array.from({ length: 5 }, (_, i) => i + 1)]. *)
Definition stars : list Z := (λ i : nat, Z.of_nat i + 1) <$> seq 0 5.

(** [hover || rating]: the rating shown while no star is hovered. *)
Definition hover_or_rating (hover rating : Z) : Z :=
  if hover =? 0 then rating else hover.

(** Whether a star is drawn filled, [starIndex <= (hover || rating)]. *)
Definition filled (hover rating starIndex : Z) : bool :=
  starIndex <=? hover_or_rating hover rating.

(** [onClick] of a star, [!readOnly && setRating && setRating(starIndex)]:
    the rating handed to [setRating], when it is called at all. *)
Definition StarRating_onClick (readOnly setRating : bool) (starIndex : Z) : option Z :=
  if negb readOnly && setRating then Some starIndex else None.

(** [onMouseEnter] and [onMouseLeave] of a star: the next [hover]. *)
Definition StarRating_onMouseEnter (readOnly : bool) (starIndex hover : Z) : Z :=
  if negb readOnly then starIndex else hover.
Definition StarRating_onMouseLeave (readOnly : bool) (hover : Z) : Z :=
  if negb readOnly then 0 else hover.

(** The mouse over the stars. *)
Inductive StarEvent : Type :=
| MouseEnter (starIndex : Z)
| MouseLeave.

Definition StarRating_on (readOnly : bool) (hover : Z) (e : StarEvent) : Z :=
  match e with
  | MouseEnter starIndex => StarRating_onMouseEnter readOnly starIndex hover
  | MouseLeave => StarRating_onMouseLeave readOnly hover
  end.

(** The stars drawn filled. *)
Definition filled_stars (hover rating : Z) : list Z :=
  filter (λ starIndex, filled hover rating starIndex = true) stars.

(** *** The inputs of the forms *)

(** A candidate of the metadata search.  [release_date] is read with
    [?.], so it may be missing. *)
Record TmdbMovieSearchResult : Type := mkResult {
  result_id : Z;
  result_title : string;
  release_date : option string;
  poster_path : option string
}.

(** The inputs that all three forms have: the text fields, each with
    [setFormData({ ...formData, field: e.target.value })], and the stars,
    with [setRating={rating => setFormData({ ...formData, rating })}]. *)
Inductive FieldEvent : Type :=
| TitleChange (v : string)
| DateChange (v : string)
| ReviewChange (v : string)
| StarClick (k : nat).

Definition BaseFields_on (e : FieldEvent) (f : BaseFields) : BaseFields :=
  match e with
  | TitleChange v => mkFields v (f_review f) (f_rating f) (f_date f)
  | DateChange v => mkFields (f_title f) (f_review f) (f_rating f) v
  | ReviewChange v => mkFields (f_title f) v (f_rating f) (f_date f)
  | StarClick k =>
      match stars !! k with
      | Some starIndex =>
          match StarRating_onClick false true starIndex with
          | Some rating => mkFields (f_title f) (f_review f) rating (f_date f)
          | None => f
          end
      | None => f
      end
  end.

(** [movie.release_date?.substring(0, 4) || '']. *)
Definition release_year (movie : TmdbMovieSearchResult) : string :=
  match release_date movie with
  | Some d => let y := substring 0 4 d in if truthy y then y else ""
  | None => ""
  end.

(** The [setFormData] of [handleSelectMovie]. *)
Definition handleSelectMovie (movie : TmdbMovieSearchResult) (prev : MovieFormData)
  : MovieFormData :=
  mkMovieFormData (mkFields (result_title movie) (f_review prev) (f_rating prev) (f_date prev))
    (release_year movie) (poster_path movie) (result_id movie).

(** What can happen in a form before it is submitted.  [MovieForm] has
    the common inputs and the list of candidates; [BookForm] has the common
    inputs, author and ISBN; [EventForm] the common inputs and the venue. *)
Inductive FormEvent : Type :=
| Field (e : FieldEvent)
| SelectMovie (movie : TmdbMovieSearchResult)
| AuthorChange (v : string)
| IsbnChange (v : string)
| VenueChange (v : string).

(** An event on an input that the form does not have changes nothing. *)
Definition FormData_on (formData : FormData) (e : FormEvent) : FormData :=
  match formData, e with
  | MovieData d, Field e =>
      MovieData (mkMovieFormData (BaseFields_on e d) (f_releaseYear d) (f_posterPath d)
                   (f_tmdbId d))
  | MovieData d, SelectMovie candidate => MovieData (handleSelectMovie candidate d)
  | BookData d, Field e => BookData (mkBookFormData (BaseFields_on e d) (f_author d) (f_isbn d))
  | BookData d, AuthorChange v => BookData (mkBookFormData d v (f_isbn d))
  | BookData d, IsbnChange v => BookData (mkBookFormData d (f_author d) v)
  | EventData d, Field e => EventData (mkEventFormData (BaseFields_on e d) (f_venue d))
  | EventData d, VenueChange v => EventData (mkEventFormData d v)
  | _, _ => formData
  end.

Definition FormData_fields (formData : FormData) : BaseFields :=
  match formData with
  | MovieData d => d
  | BookData d => d
  | EventData d => d
  end.

Definition is_select (e : FormEvent) : bool :=
  match e with
  | SelectMovie _ => true
  | _ => false
  end.

(** The candidate selected last, if any was. *)
Definition selected (e : FormEvent) : option TmdbMovieSearchResult :=
  match e with
  | SelectMovie candidate => Some candidate
  | _ => None
  end.

Definition last_selected (events : list FormEvent) : option TmdbMovieSearchResult :=
  last (omap selected events).

(** The events on the inputs other than the list of candidates. *)
Definition typed (events : list FormEvent) : list FormEvent :=
  filter (λ e, is_select e = false) events.

(** *** The cards *)

(** [review.substring(0, limit)] followed by ['...'] when the review is
    longer.  Lengths are counted in the bytes of the string, which are the
    code units for text in the ASCII range. *)
Definition preview (limit : nat) (review : string) : string :=
  substring 0 limit review
  +:+ (if (limit <? String.length review)%nat then "..." else "").

Definition MovieCard_review (item : Movie) : string := preview 100 (review item).
Definition BookCard_review (item : Book) : string := preview 150 (review item).
Definition EventCard_review (item : Event) : string := preview 150 (review item).

(** *** The candidates of [MovieForm]

    The [searchResults] and [isLoading] states, and the queries whose
    [await tmdbService.searchMovies(...)] has not settled yet, oldest
    first. *)
Record Results : Type := mkResults {
  searchResults : Browser.value;
  isLoading : bool;
  pending : list string
}.

(** The search effect runs for a debounced query. *)
Definition search_effect (debouncedSearchQuery : string) (r : Results) : Results :=
  if truthy debouncedSearchQuery
  then mkResults (searchResults r) true (pending r ++ [debouncedSearchQuery])
  else mkResults (Browser.val (JSON.JArr [])) (isLoading r) (pending r).

(** The [k]-th pending search settles with [results]: the rest of the
    effect runs, [setSearchResults(results); setIsLoading(false)]. *)
Definition search_settles (k : nat) (results : Browser.value) (r : Results) : Results :=
  match pending r !! k with
  | Some _ => mkResults results false (delete k (pending r))
  | None => r
  end.

(** [searchResults.length], the property read by the guard of the list of
    candidates: reading it from [undefined] or [null] throws; an array has
    its length, a string its length, an object the member of that name if
    it has one, a number or a boolean none. *)
Definition searchResults_length (searchResults : Browser.value) : Browser.Error + Browser.value :=
  match searchResults with
  | Browser.undefined => inl Browser.TypeError
  | Browser.val JSON.JNull => inl Browser.TypeError
  | Browser.val (JSON.JArr l) => inr (Browser.val (JSON.JNum (Z.of_nat (length l))))
  | Browser.val (JSON.JStr s) => inr (Browser.val (JSON.JNum (Z.of_nat (String.length s))))
  | Browser.val (JSON.JObj l) => Browser.get_property (JSON.JObj l) "length"
  | Browser.val _ => inr Browser.undefined
  end.

(** The search effect runs for a query and the search it starts settles,
    to [outcome], before anything else happens.  When the promise rejects
    the rest of the effect does not run. *)
Definition search_round (outcome : Browser.Error + Browser.value) (query : string)
    (r : Results) : Results :=
  match outcome with
  | inr results => search_settles (length (pending r)) results (search_effect query r)
  | inl _ => search_effect query r
  end.

(** Two contents of a form that differ at most in what selecting a
    candidate sets. *)
Definition same_input (a b : FormData) : Prop :=
  match a, b with
  | MovieData d, MovieData d' =>
      f_review d = f_review d' ∧ f_rating d = f_rating d' ∧ f_date d = f_date d'
  | BookData d, BookData d' => d = d'
  | EventData d, EventData d' => d = d'
  | _, _ => False
  end.

(** The release year, the poster and the TMDB id of the content of a
    movie form. *)
Definition link (formData : FormData) : option (string * option string * Z) :=
  match formData with
  | MovieData d => Some (f_releaseYear d, f_posterPath d, f_tmdbId d)
  | _ => None
  end.

(** The texts the search field was changed to. *)
Definition changes (es : list SearchEvent) : list string :=
  omap (λ e, match e with Change v => Some v | Elapse _ => None end) es.

(** What holds of the debounce in every state the form can reach: the
    pending timeout, if there is one, carries the text of the field and
    fires within the delay; with none pending the debounced value is the
    text of the field; and every query searched for is a text the field
    was changed to, and not empty. *)
Definition settled_or_pending (delay : nat) (typed : list string) (s : Search) : Prop :=
  match handler s with
  | Some (remaining, v) => v = searchQuery s ∧ (remaining ≤ delay)%nat
  | None => debouncedValue s = searchQuery s
  end
  ∧ (searchQuery s = "" ∨ searchQuery s ∈ typed)
  ∧ ∀ q, q ∈ searched s → q ≠ "" ∧ q ∈ typed.

End Components.

(** ** App.tsx *)

Module App.
Import JSON Browser Types Services.

(** The six state hooks of [App], and the storage of the page. *)
Record State : Type := mkState {
  movies : list Movie;
  books : list Book;
  events : list Event;
  currentView : ActivityType;
  isModalOpen : bool;
  editingItem : option Activity;
  localStorage : Storage
}.

Definition setMovies (v : list Movie) (st : State) : State :=
  mkState v (books st) (events st) (currentView st) (isModalOpen st) (editingItem st)
    (localStorage st).
Definition setBooks (v : list Book) (st : State) : State :=
  mkState (movies st) v (events st) (currentView st) (isModalOpen st) (editingItem st)
    (localStorage st).
Definition setEvents (v : list Event) (st : State) : State :=
  mkState (movies st) (books st) v (currentView st) (isModalOpen st) (editingItem st)
    (localStorage st).
Definition setCurrentView (v : ActivityType) (st : State) : State :=
  mkState (movies st) (books st) (events st) v (isModalOpen st) (editingItem st)
    (localStorage st).
Definition setIsModalOpen (v : bool) (st : State) : State :=
  mkState (movies st) (books st) (events st) (currentView st) v (editingItem st)
    (localStorage st).
Definition setEditingItem (v : option Activity) (st : State) : State :=
  mkState (movies st) (books st) (events st) (currentView st) (isModalOpen st) v
    (localStorage st).
(** A call that writes to the storage. *)
Definition storage (f : Storage → Storage) (st : State) : State :=
  mkState (movies st) (books st) (events st) (currentView st) (isModalOpen st)
    (editingItem st) (f (localStorage st)).

Definition handleOpenModal (itemToEdit : option Activity) (st : State) : State :=
  setIsModalOpen true (setEditingItem itemToEdit st).

Definition handleCloseModal (st : State) : State :=
  setEditingItem None (setIsModalOpen false st).

(** [items.map(m => m.id === item.id ? item : m)]. *)
Definition replace_by_id `{Item T} (item : T) (items : list T) : list T :=
  (λ m, if decide (id (base m) = id (base item)) then item else m) <$> items.

(** [editingItem ? items.map(...) : [...items, item]]. *)
Definition saved `{Item T} (editingItem : option Activity) (items : list T) (item : T)
  : list T :=
  match editingItem with
  | Some _ => replace_by_id item items
  | None => items ++ [item]
  end.

Definition handleSaveMovie (movie : Movie) (st : State) : State :=
  let newMovies := saved (editingItem st) (movies st) movie in
  handleCloseModal (storage (saveMovies newMovies) (setMovies newMovies st)).

Definition handleSaveBook (book : Book) (st : State) : State :=
  let newBooks := saved (editingItem st) (books st) book in
  handleCloseModal (storage (saveBooks newBooks) (setBooks newBooks st)).

Definition handleSaveEvent (event : Event) (st : State) : State :=
  let newEvents := saved (editingItem st) (events st) event in
  handleCloseModal (storage (saveEvents newEvents) (setEvents newEvents st)).

(** [items.filter(m => m.id !== id)]. *)
Definition without_id `{Item T} (i : string) (items : list T) : list T :=
  filter (λ m, id (base m) ≠ i) items.

Definition confirm_message : string := "Are you sure you want to delete this item?".

(** [window_confirm] is the answer the user gives to a prompt. *)
Definition handleDelete (window_confirm : string → bool) (i : string) (ty : ActivityType)
    (st : State) : State :=
  if window_confirm confirm_message then
    match ty with
    | movie =>
        let updatedMovies := without_id i (movies st) in
        storage (saveMovies updatedMovies) (setMovies updatedMovies st)
    | book =>
        let updatedBooks := without_id i (books st) in
        storage (saveBooks updatedBooks) (setBooks updatedBooks st)
    | event =>
        let updatedEvents := without_id i (events st) in
        storage (saveEvents updatedEvents) (setEvents updatedEvents st)
    end
  else st.

(** The form element of the modal, with its [itemToEdit] prop; [onSave] is
    the save handler of the same category. *)
Inductive Form : Type :=
| MovieForm (itemToEdit : option Movie)
| BookForm (itemToEdit : option Book)
| EventForm (itemToEdit : option Event).

(** [itemToEdit as Movie], and likewise for the other two. *)
Definition as_Movie (a : option Activity) : option Movie :=
  match a with Some (AMovie m) => Some m | _ => None end.
Definition as_Book (a : option Activity) : option Book :=
  match a with Some (ABook b) => Some b | _ => None end.
Definition as_Event (a : option Activity) : option Event :=
  match a with Some (AEvent e) => Some e | _ => None end.

Definition getModalContent (st : State) : string * Form :=
  let itemToEdit := editingItem st in
  let view := match itemToEdit with Some a => type a | None => currentView st end in
  match view with
  | movie => (if itemToEdit is Some _ then "Edit Movie Log" else "Log New Movie",
              MovieForm (as_Movie itemToEdit))
  | book => (if itemToEdit is Some _ then "Edit Book Log" else "Log New Book",
             BookForm (as_Book itemToEdit))
  | event => (if itemToEdit is Some _ then "Edit Event Log" else "Log New Event",
              EventForm (as_Event itemToEdit))
  end.

(** Submitting the form of the modal: the item it hands to [onSave].  A
    form holds the fields of its own category. *)
Definition Form_handleSubmit (form : Form) (formData : Components.FormData)
    (randomUUID : string) : option Activity :=
  match form, formData with
  | MovieForm itemToEdit, Components.MovieData d =>
      Some (AMovie (Components.MovieForm_handleSubmit itemToEdit d randomUUID))
  | BookForm itemToEdit, Components.BookData d =>
      Some (ABook (Components.BookForm_handleSubmit itemToEdit d randomUUID))
  | EventForm itemToEdit, Components.EventData d =>
      Some (AEvent (Components.EventForm_handleSubmit itemToEdit d randomUUID))
  | _, _ => None
  end.

(** The fields of a category. *)
Definition FormData_type (formData : Components.FormData) : ActivityType :=
  match formData with
  | Components.MovieData _ => movie
  | Components.BookData _ => book
  | Components.EventData _ => event
  end.



(** [new Date(b.date).getTime() - new Date(a.date).getTime()]. *)
Definition sortFn (a b : Activity) : Number :=
  Number_sub (Date_getTime (date b)) (Date_getTime (date a)).

Definition sortedItems (st : State) : list Activity :=
  match currentView st with
  | movie => Array_sort sortFn (AMovie <$> movies st)
  | book => Array_sort sortFn (ABook <$> books st)
  | event => Array_sort sortFn (AEvent <$> events st)
  end.

(** The time stamp of the date of an item that has one, and whether it
    has one. *)
Definition time (a : Activity) : Z := default 0 (Date_getTime (date a)).
Definition dated (a : Activity) : Prop := is_Some (Date_getTime (date a)).

(** Later dates first. *)
Definition later_first (a b : Activity) : Prop := time b ≤ time a.

(** *** The operations by category *)

(** The collection of a category as activities, in stored order. *)
Definition activities (ty : ActivityType) (st : State) : list Activity :=
  match ty with
  | movie => AMovie <$> movies st
  | book => ABook <$> books st
  | event => AEvent <$> events st
  end.

Definition STORAGE_KEY (ty : ActivityType) : string :=
  match ty with
  | movie => Constants.STORAGE_KEY_MOVIES
  | book => Constants.STORAGE_KEY_BOOKS
  | event => Constants.STORAGE_KEY_EVENTS
  end.

(** The save operation of the controller: the form of the item's category
    passes the item to the save handler of that category. *)
Definition save (item : Activity) (st : State) : State :=
  match item with
  | AMovie m => handleSaveMovie m st
  | ABook b => handleSaveBook b st
  | AEvent e => handleSaveEvent e st
  end.

(** The load operation of the adapter. *)
Definition load (ty : ActivityType) (ls : Storage) : json :=
  match ty with
  | movie => getMovies ls
  | book => getBooks ls
  | event => getEvents ls
  end.

(** The ids of a collection, in stored order. *)
Definition ids (items : list Activity) : list string := (λ x : Activity, id x) <$> items.

(** The records of a collection that carry a given id. *)
Definition with_id (i : string) (items : list Activity) : list Activity :=
  filter (λ x : Activity, id x = i) items.

(** *** The page as a whole *)

(** The state of the first render, before the effect has run. *)
Definition initial (ls : Storage) : State := mkState [] [] [] movie false None ls.

(** A value read from the storage, taken as [T[]].  The code makes no
    check; the model follows it where the value has that shape. *)
Definition items_of_json `{Item T} (j : json) : option (list T) :=
  match j with
  | JArr l => mapM of_json l
  | _ => None
  end.

(** The effect of [App]:
    [setMovies(storageService.getMovies()); setBooks(...); setEvents(...)]. *)
Definition App_useEffect (st : State) : option State :=
  ms ← items_of_json (getMovies (localStorage st));
  bs ← items_of_json (getBooks (localStorage st));
  es ← items_of_json (getEvents (localStorage st));
  Some (setEvents es (setBooks bs (setMovies ms st))).

(** What the user can do on the page: the buttons of the header, the
    add button, the two buttons of a card of the listing, closing the
    modal, and submitting the form it shows. *)
Inductive Action : Type :=
| Navigate (view : ActivityType)
| AddNew
| EditCard (item : Activity)
| DeleteCard (i : string) (window_confirm : string → bool)
| CloseModal
| SubmitForm (formData : Components.FormData) (randomUUID : string).

(** The cards of a view pass that view to [handleDelete]; the form is
    there to submit only while the modal is open. *)
Definition dispatch (st : State) (a : Action) : State :=
  match a with
  | Navigate view => setCurrentView view st
  | AddNew => handleOpenModal None st
  | EditCard item => handleOpenModal (Some item) st
  | DeleteCard i window_confirm => handleDelete window_confirm i (currentView st) st
  | CloseModal => handleCloseModal st
  | SubmitForm formData randomUUID =>
      if isModalOpen st then
        match Form_handleSubmit (getModalContent st).2 formData randomUUID with
        | Some item => save item st
        | None => st
        end
      else st
  end.

(** The [formData] a form starts with. *)
Definition Form_formData (form : Form) (today : string) : Components.FormData :=
  match form with
  | MovieForm itemToEdit => Components.MovieData (Components.MovieForm_formData itemToEdit today)
  | BookForm itemToEdit => Components.BookData (Components.BookForm_formData itemToEdit today)
  | EventForm itemToEdit => Components.EventData (Components.EventForm_formData itemToEdit today)
  end.

(** The [formData] of a mounted form that held [formData] before some
    events on its inputs. *)
Definition filled_in (formData : Components.FormData) (events : list Components.FormEvent)
  : Components.FormData :=
  foldl Components.FormData_on formData events.

(** The item a submit hands to the save handler, if there is a form to
    submit. *)
Definition submitted (st : State) (formData : Components.FormData) (randomUUID : string)
  : option Activity :=
  if isModalOpen st then Form_handleSubmit (getModalContent st).2 formData randomUUID
  else None.

Definition dispatch_all (actions : list Action) (st : State) : State :=
  foldl dispatch st actions.

(** [renderContent]: the note that nothing is logged yet, or the grid of
    the cards of [sortedItems]. *)
Inductive Content : Type :=
| NothingLogged (view : ActivityType)
| Grid (view : ActivityType) (cards : list Activity).

Definition renderContent (st : State) : Content :=
  if (length (sortedItems st) =? 0)%nat then NothingLogged (currentView st)
  else Grid (currentView st) (sortedItems st).

(** *** The mounted form

    The modal renders its children only while it is open, so a form is
    mounted when the modal opens and unmounted when it closes.  React runs
    the initialiser of [useState] when a component is mounted, and keeps
    the state of a mounted component for as long as an element of the same
    component is rendered in its place, whatever its props become: a form
    that stays open keeps its [formData] when [itemToEdit] changes, and a
    form of another category in its place is mounted afresh. *)
Record Page : Type := mkPage {
  app : State;
  formData : option Components.FormData
}.

(** A page with the modal closed and no form mounted. *)
Definition closed (st : State) : Page := mkPage st None.

Definition Form_type (form : Form) : ActivityType :=
  match form with
  | MovieForm _ => movie
  | BookForm _ => book
  | EventForm _ => event
  end.

(** The [formData] of the form after [App] has rendered in state [st],
    given that of the form mounted before, if one was.  [today] is what
    [new Date().toISOString().split('T')[0]] gives at this render. *)
Definition rendered (today : string) (mounted : option Components.FormData) (st : State)
  : option Components.FormData :=
  if isModalOpen st then
    let form := (getModalContent st).2 in
    match mounted with
    | Some formData =>
        if decide (FormData_type formData = Form_type form) then Some formData
        else Some (Form_formData form today)
    | None => Some (Form_formData form today)
    end
  else None.

(** The buttons of the page outside the form.  A card is named by the
    place of its record in the collection of the view. *)
Inductive Button : Type :=
| HeaderButton (view : ActivityType)
| AddButton
| EditButton (k : nat)
| DeleteButton (k : nat) (window_confirm : string → bool)
| CloseButton.

Definition Button_onClick (st : State) (b : Button) : option Action :=
  match b with
  | HeaderButton view => Some (Navigate view)
  | AddButton => Some AddNew
  | EditButton k => EditCard <$> activities (currentView st) st !! k
  | DeleteButton k window_confirm =>
      (λ item : Activity, DeleteCard (id item) window_confirm)
        <$> activities (currentView st) st !! k
  | CloseButton => Some CloseModal
  end.

(** What the user does: presses a button, on some day; changes an input
    of the mounted form; submits the mounted form, that is, its [submit]
    event fires and [handleSubmit] runs, [crypto.randomUUID] giving what
    it gives. *)
Inductive PageEvent : Type :=
| Press (b : Button) (today : string)
| Input (e : Components.FormEvent)
| Submit (randomUUID : string).

Definition Page_on (p : Page) (e : PageEvent) : Page :=
  match e with
  | Press b today =>
      match Button_onClick (app p) b with
      | Some a =>
          let st := dispatch (app p) a in
          mkPage st (rendered today (formData p) st)
      | None => p
      end
  | Input e => mkPage (app p) ((λ d, Components.FormData_on d e) <$> formData p)
  | Submit randomUUID =>
      match formData p with
      | Some d =>
          let st := dispatch (app p) (SubmitForm d randomUUID) in
          mkPage st (if isModalOpen st then formData p else None)
      | None => p
      end
  end.

Definition Page_run (events : list PageEvent) (p : Page) : Page := foldl Page_on p events.

(** A rating from 0 to 5, of an item and of every record the page
    holds. *)
Definition rated (a : Activity) : Prop := 0 ≤ rating a ≤ 5.

Definition all_rated (st : State) : Prop := ∀ ty a, a ∈ activities ty st → rated a.

(** Every record has such a rating, and so have the mounted form and the
    item in the edit slot while the modal is open; a form is mounted
    exactly while the modal is open. *)
Definition Page_rated (p : Page) : Prop :=
  all_rated (app p)
  ∧ match formData p with
    | Some d =>
        isModalOpen (app p) = true
        ∧ 0 ≤ Components.f_rating (Components.FormData_fields d) ≤ 5
        ∧ ∀ a, editingItem (app p) = Some a → rated a
    | None => isModalOpen (app p) = false
    end.

(** Memory and storage agree: a load of each category gives the collection
    the page holds. *)
Definition in_sync (st : State) : Prop :=
  ∀ ty, load ty (localStorage st) = collection (activities ty st).

(** No two records of a collection share an id. *)
Definition unique_ids (st : State) : Prop := ∀ ty, NoDup (ids (activities ty st)).

(** An id that [crypto.randomUUID] may give in a state: not empty, and not
    the id of a record the page holds. *)
Definition fresh_id (st : State) (randomUUID : string) : Prop :=
  randomUUID ≠ "" ∧ ∀ ty, randomUUID ∉ ids (activities ty st).

(** Every submit of a run of actions is given a fresh id. *)
Fixpoint fresh_ids (st : State) (actions : list Action) : Prop :=
  match actions with
  | [] => True
  | a :: actions' =>
      match a with
      | SubmitForm _ randomUUID => fresh_id st randomUUID
      | _ => True
      end
      ∧ fresh_ids (dispatch st a) actions'
  end.

(** The write an action makes, if it makes one: the key and the text
    passed to [localStorage.setItem].  A confirmed delete writes the
    collection of the view, a submit that reaches a save handler the
    collection of the item's category, each as the handler has just made
    it; no other action writes. *)
Definition written (st : State) (a : Action) : option (string * string) :=
  let text ty := JSON.stringify (collection (activities ty (dispatch st a))) in
  match a with
  | DeleteCard i window_confirm =>
      if window_confirm confirm_message
      then Some (STORAGE_KEY (currentView st), text (currentView st))
      else None
  | SubmitForm formData randomUUID =>
      match submitted st formData randomUUID with
      | Some item => Some (STORAGE_KEY (type item), text (type item))
      | None => None
      end
  | _ => None
  end.

(** Every write of a run of actions is taken by the storage. *)
Fixpoint writes_accepted (st : State) (actions : list Action) : Prop :=
  match actions with
  | [] => True
  | a :: actions' =>
      match written st a with
      | Some (key, text) => accepts (localStorage st) key text = true
      | None => True
      end
      ∧ writes_accepted (dispatch st a) actions'
  end.

(** A confirmed delete of id [i] from the category [ty]. *)
Definition deletes (st : State) (a : Action) (ty : ActivityType) (i : string) : Prop :=
  match a with
  | DeleteCard j window_confirm =>
      j = i ∧ currentView st = ty ∧ window_confirm confirm_message = true
  | _ => False
  end.

End App.

(** ** Sample data *)

Module Examples.
Import JSON Browser Types Services Components App.

Definition dune : Movie :=
  mkMovie (mkBase "7d3c" "Dune" "Sand." 4 "2024-03-01") "2021" None 0.
Definition dune_again : Movie :=
  mkMovie (mkBase "7d3c" "Dune" "Sand, again." 5 "2024-03-09") "2021" None 0.

Definition empty_storage : Storage := mkStorage ∅ 5000000 false.

Definition listing (ms : list Movie) (editing : option Activity) : State :=
  mkState ms [] [] movie false editing empty_storage.

(** A stored value of an earlier shape, and a query that is one unpaired
    surrogate, U+D800. *)
Definition old_shape : json := JArr [JObj [("name", JStr "Dune")]].
Definition lone_surrogate : string :=
  String (ascii_of_N 237) (String (ascii_of_N 160) (String (ascii_of_N 128) EmptyString)).

Definition arrival : Movie :=
  mkMovie (mkBase "a04f" "Arrival" "Circles." 5 "2023-11-20") "2016" None 0.

Definition tenet : Movie :=
  mkMovie (mkBase "c9e1" "Tenet" "Backwards." 3 "2024-07-04") "2020" None 0.

Definition new_dune : MovieFormData :=
  mkMovieFormData (mkFields "Dune" "Sand." 4 "2024-03-01") "2021" None 0.

Definition dune_revised : MovieFormData :=
  mkMovieFormData (mkFields "Dune" "Sand, again." 5 "2024-03-09") "2021" None 0.

(** A storage that is full: it holds the collection of the one movie
    [dune], 17 code units of key and 143 of text, and has room for no
    more.  The page on it holds a second movie, whose save the storage
    refused. *)
Definition full_storage : Storage :=
  mkStorage {[ Constants.STORAGE_KEY_MOVIES := JSON.stringify (collection [dune]) ]} 160
    false.

Definition crowded : State := mkState [dune; arrival] [] [] movie false None full_storage.

(** A movie whose date is the empty text, which [new Date] does not
    read as a date. *)
Definition undated : Movie := mkMovie (mkBase "0000" "?" "" 0 "") "" None 0.

End Examples.

(** ** Sentences of the specification that the code does not bear out

    Each is stated here as the specification words it; it is refuted
    below, next to the statement that does hold. *)

Module Sentences.
Import JSON Browser Types Services Components App Examples.

(** Save decided by the id: a record with the id of [I] is replaced, an
    item with a new id is appended, and a load after the save finds exactly
    one record with that id, [I] itself. *)
Definition save_decided_by_id (st : State) (I : Activity) : Prop :=
  let old := activities (type I) st in
  let st' := save I st in
  let new := activities (type I) st' in
  (id I ∈ ids old → new = replace_by_id I old)
  ∧ (id I ∉ ids old → new = old ++ [I])
  ∧ ∃ loaded : list Activity,
      load (type I) (localStorage st') = collection loaded ∧ with_id (id I) loaded = [I].

(** Saving an item whose id is present a second time changes nothing. *)
Definition save_twice_is_save_once (st : State) (I : Activity) : Prop :=
  id I ∈ ids (activities (type I) st) →
  activities (type I) (save I (save I st)) = activities (type I) (save I st).

(** Delete: with exactly one record of the id in a collection of N, a
    confirmed delete leaves N-1 records, none of that id, and the reduced
    collection is what is stored, so that a load gives it; a declined
    delete changes nothing. *)
Definition delete_persists (window_confirm : string → bool) (i : string)
    (ty : ActivityType) (st : State) : Prop :=
  length (with_id i (activities ty st)) = 1%nat →
  let st' := handleDelete window_confirm i ty st in
  let new := activities ty st' in
  (window_confirm confirm_message = true →
     length new = (length (activities ty st) - 1)%nat
     ∧ with_id i new = []
     ∧ load ty (localStorage st') = collection new)
  ∧ (window_confirm confirm_message = false → st' = st).

(** The listing of any collection is a permutation of it in which, of two
    items with distinct dates, the one with the later date comes first. *)
Definition listing_by_date (st : State) : Prop :=
  sortedItems st ≡ₚ activities (currentView st) st
  ∧ ∀ i j (a b : Activity) ca cb,
      sortedItems st !! i = Some a → sortedItems st !! j = Some b →
      calendar_date (date a) = Some ca → calendar_date (date b) = Some cb →
      earlier cb ca → (i < j)%nat.

(** Load gives the empty collection when nothing is stored, when reading
    or parsing fails, and also when what is stored parses to a value that
    is not of the shape of the collection. *)
Definition load_checks_shape (T : Type) `{Item T} (key : string) (ls : Storage) : Prop :=
  (getItem ls key = inr None → getItemsFromStorage key ls = JArr [])
  ∧ ((∃ e, getItem ls key = inl e) → getItemsFromStorage key ls = JArr [])
  ∧ (∀ s, getItem ls key = inr (Some s) → JSON.parse s = None →
       getItemsFromStorage key ls = JArr [])
  ∧ (∀ s v, getItem ls key = inr (Some s) → JSON.parse s = Some v →
       has_shape T v = false → getItemsFromStorage key ls = JArr []).

(** Search never throws; with an empty query or the placeholder key it
    gives the empty list and requests nothing; otherwise it makes exactly
    one request, and gives the empty list when that request fails or its
    response is not ok. *)
Definition search_requests_once (key : string) (net : Network) (query : string) : Prop :=
  let result := settle (searchMovies key net query) in
  (∃ v, result.2 = inr v)
  ∧ (query = "" ∨ key = Constants.TMDB_API_KEY →
       result = ([], inr (val (JArr []))))
  ∧ (query ≠ "" → key ≠ Constants.TMDB_API_KEY →
       ∃ u, result.1 = [u]
            ∧ ((net u = NetworkFailure ∨ ∃ body, net u = Response false body) →
               result.2 = inr (val (JArr [])))).

(** A burst of changes, each within the window of the one before, then a
    pause: exactly one search, for the last text. *)
Definition burst_searches_last (s : Search) (first : string) (more : list (nat * string))
    (pause : nat) : Prop :=
  all_changes (searchQuery s) (first :: (snd <$> more)) →
  Forall (λ gv, gv.1 < MovieForm_delay)%nat more →
  (MovieForm_delay ≤ pause)%nat →
  searched (run MovieForm_delay (typing first more pause) s)
  = searched s ++ [final_query first more].

End Sentences.

(** * Properties *)

(** ** JSON: the text of a value parses back to the value *)

Module JSONFacts.
Import JSON.

Lemma app_cons c s t : String c s +:+ t = String c (s +:+ t).
Proof. reflexivity. Qed.

Lemma app_empty t : "" +:+ t = t.
Proof. reflexivity. Qed.

Lemma app_assoc s t u : (s +:+ t) +:+ u = s +:+ (t +:+ u).
Proof. induction s as [|c s IH]; [done|]. by rewrite !app_cons, IH. Qed.

Lemma length_app s t : String.length (s +:+ t) = (String.length s + String.length t)%nat.
Proof. induction s as [|c s IH]; [done|]. rewrite app_cons. simpl. by rewrite IH. Qed.

(** Strings *)

Lemma parse_chars_escape_char c t :
  parse_chars (escape_char c +:+ t) = prepend (String c "") (parse_chars t).
Proof.
  destruct c as [[] [] [] [] [] [] [] []]; reflexivity.
Qed.

Lemma parse_chars_escape s rest :
  parse_chars (escape s +:+ String dquote rest) = Some (s, rest).
Proof.
  induction s as [|c s IH]; [done|].
  simpl escape. rewrite app_assoc, parse_chars_escape_char, IH. done.
Qed.

Lemma parse_chars_quote s rest :
  ∃ t, quote s +:+ rest = String dquote t ∧ parse_chars t = Some (s, rest).
Proof.
  exists (escape s +:+ String dquote rest). split.
  - unfold quote. by rewrite app_cons, app_assoc.
  - apply parse_chars_escape.
Qed.

(** Numbers *)

Lemma all_num_empty : all_num "".
Proof. intros [|c t] H; [done|]. rewrite app_empty. simpl in *. by rewrite H. Qed.

Lemma all_num_cons c s : is_numchar c = true → all_num s → all_num (String c s).
Proof. intros Hc Hs t Ht. rewrite app_cons. simpl. by rewrite Hc, (Hs t Ht). Qed.

Lemma all_num_uint d : all_num (NilEmpty.string_of_uint d).
Proof.
  induction d; simpl; first [apply all_num_empty | by apply all_num_cons].
Qed.

Lemma all_num_print_Z z : all_num (print_Z z).
Proof.
  unfold print_Z. destruct (Z.to_int z); simpl.
  - apply all_num_uint.
  - apply all_num_cons; [done|apply all_num_uint].
Qed.

Lemma print_Z_minus_zero z : print_Z z = "-0" → z = 0.
Proof.
  unfold print_Z. intros H.
  pose proof (NilEmpty.isi (Z.to_int z)) as Hi. rewrite H in Hi.
  rewrite <- (DecimalZ.of_to z). by injection Hi as <-.
Qed.

Lemma parse_number_print z rest :
  starts_num rest = false → parse_number (print_Z z +:+ rest) = Some (z, rest).
Proof.
  intros Hr. unfold parse_number. rewrite (all_num_print_Z z rest Hr).
  destruct (String.eqb_spec (print_Z z) "-0") as [H0|_].
  - by rewrite (print_Z_minus_zero z H0).
  - unfold print_Z at 1. rewrite NilEmpty.isi, DecimalZ.of_to.
    by rewrite String.eqb_refl.
Qed.

Lemma print_Z_head z : ∃ c s, print_Z z = String c s ∧ is_numchar c = true.
Proof.
  destruct (print_Z z) as [|c s] eqn:E.
  - exfalso. pose proof (NilEmpty.isi (Z.to_int z)) as Hi.
    unfold print_Z in E. rewrite E in Hi. injection Hi as Hi.
    pose proof (DecimalZ.of_to z) as Hz. rewrite <- Hi in Hz. simpl in Hz. by subst z.
  - exists c, s. split; [done|].
    pose proof (all_num_print_Z z "" eq_refl) as H. rewrite E, app_cons in H.
    simpl in H. destruct (is_numchar c); [done|discriminate].
Qed.

Lemma numchar_dispatch c :
  is_numchar c = true →
  is_ws c = false ∧ is_char 110 c = false ∧ is_char 116 c = false ∧ is_char 102 c = false
  ∧ is_char 34 c = false ∧ is_char 91 c = false ∧ is_char 123 c = false
  ∧ is_char 93 c = false.
Proof.
  destruct c as [[] [] [] [] [] [] [] []]; try discriminate; done.
Qed.

(** Values *)

Lemma stringify_arr l : stringify (JArr l) = "[" +:+ elems_text l +:+ "]".
Proof. reflexivity. Qed.

Lemma stringify_obj l : stringify (JObj l) = "{" +:+ members_text l +:+ "}".
Proof. reflexivity. Qed.

Lemma size_arr l : size (JArr l) = S (elems_size l).
Proof. reflexivity. Qed.

Lemma size_obj l : size (JObj l) = S (members_size l).
Proof. reflexivity. Qed.

(** The text of a value starts with a character that is not white space. *)
Lemma stringify_head v :
  ∃ c s, stringify v = String c s ∧ is_ws c = false ∧ is_char 93 c = false.
Proof.
  destruct v as [|[]|n|s|l|l]; try by eexists _, _.
  destruct (print_Z_head n) as (c & s & E & Hc). exists c, s. split; [done|].
  destruct (numchar_dispatch c Hc) as (? & ? & ? & ? & ? & ? & ? & ?). done.
Qed.

Lemma skip_ws_stringify v rest : skip_ws (stringify v +:+ rest) = stringify v +:+ rest.
Proof.
  destruct (stringify_head v) as (c & s & -> & Hc & _). rewrite app_cons. simpl.
  by rewrite Hc.
Qed.

Lemma parse_elems_text l :
  l ≠ [] → Forall roundtrips l →
  ∀ fuel rest, (elems_size l ≤ fuel)%nat →
    parse_elems fuel (elems_text l +:+ String "]" rest) = Some (l, rest).
Proof.
  intros Hne Hall. induction Hall as [|x l Hx Hl IH]; [done|].
  intros fuel rest Hfuel. simpl in Hfuel.
  destruct fuel as [|fuel]; [lia|]. 
  destruct l as [|y l'].
  - simpl elems_text. simpl parse_elems.
    rewrite (Hx fuel (String "]" rest)) by (simpl; done || lia). done.
  - change (elems_text (x :: y :: l')) with (stringify x +:+ "," +:+ elems_text (y :: l')).
    rewrite !app_assoc. simpl parse_elems.
    rewrite (Hx fuel) by (simpl in *; done || lia).
    rewrite app_cons, app_empty. simpl skip_ws. cbv beta iota. 
    change (is_char 44 ",") with true. cbv iota.
    rewrite IH; [done|done|]. simpl in *. lia.
Qed.

Lemma parse_members_text l :
  l ≠ [] → Forall (λ kv, roundtrips kv.2) l →
  ∀ fuel rest, (members_size l ≤ fuel)%nat →
    parse_members fuel (members_text l +:+ String "}" rest) = Some (l, rest).
Proof.
  intros Hne Hall. induction Hall as [|[k x] l Hx Hl IH]; [done|].
  intros fuel rest Hfuel. simpl in Hfuel, Hx.
  destruct fuel as [|fuel]; [lia|].
  destruct l as [|y l'].
  - simpl members_text. rewrite !app_assoc.
    destruct (parse_chars_quote k (":" +:+ stringify x +:+ String "}" rest))
      as (t & -> & Ht).
    simpl parse_members. rewrite Ht. rewrite app_cons, app_empty. simpl skip_ws.
    cbv beta iota. change (is_char 58 ":") with true. cbv iota.
    rewrite (Hx fuel (String "}" rest)) by (simpl; done || lia). done.
  - change (members_text ((k, x) :: y :: l'))
      with (quote k +:+ ":" +:+ stringify x +:+ "," +:+ members_text (y :: l')).
    rewrite !app_assoc.
    destruct (parse_chars_quote k
      (":" +:+ stringify x +:+ "," +:+ members_text (y :: l') +:+ String "}" rest))
      as (t & -> & Ht).
    simpl parse_members. rewrite Ht. rewrite app_cons, app_empty. simpl skip_ws.
    cbv beta iota. change (is_char 58 ":") with true. cbv iota.
    rewrite (Hx fuel) by (simpl in *; done || lia).
    rewrite app_cons, app_empty. simpl skip_ws. cbv beta iota.
    change (is_char 44 ",") with true. cbv iota.
    rewrite IH; [done|done|]. simpl in *. lia.
Qed.

Lemma elems_text_head x l rest :
  ∃ c s, elems_text (x :: l) +:+ rest = String c s ∧ is_ws c = false
         ∧ is_char 93 c = false.
Proof.
  destruct (stringify_head x) as (c & s & E & Hc & Hc').
  destruct l as [|y l].
  - simpl. rewrite E, app_cons. by eexists _, _.
  - change (elems_text (x :: y :: l)) with (stringify x +:+ "," +:+ elems_text (y :: l)).
    rewrite E, !app_cons. by eexists _, _.
Qed.

Lemma members_text_head kv l rest :
  ∃ s, members_text (kv :: l) +:+ rest = String dquote s.
Proof.
  destruct kv as [k x]. destruct l as [|y l]; by eexists.
Qed.

Lemma parse_value_stringify v : roundtrips v.
Proof.
  induction v as [| b | n | s | l IH | l IH] using json_nested_ind; intros fuel rest Hf Hr;
    (destruct fuel as [|fuel]; [simpl in Hf; lia|]).
  - done.
  - by destruct b.
  - destruct (print_Z_head n) as (c & s & E & Hc).
    pose proof (parse_number_print n rest Hr) as Hp.
    simpl stringify in *. rewrite E in *. rewrite app_cons in *.
    destruct (numchar_dispatch c Hc) as (H1 & H2 & H3 & H4 & H5 & H6 & H7 & _).
    simpl. rewrite H1, H2, H3, H4, H5, H6, H7. by rewrite Hp.
  - simpl stringify. destruct (parse_chars_quote s rest) as (t & -> & Ht).
    simpl. by rewrite Ht.
  - rewrite stringify_arr, size_arr in *. rewrite !app_cons, !app_empty, app_assoc.
    destruct l as [|x l]; [done|].
    pose proof (parse_elems_text (x :: l) ltac:(done) IH fuel rest ltac:(lia)) as Hp.
    rewrite app_cons, app_empty.
    destruct (elems_text_head x l (String "]" rest)) as (c & s & E & Hc & Hc').
    rewrite E in *. simpl. rewrite Hc, Hc'. by rewrite Hp.
  - rewrite stringify_obj, size_obj in *. rewrite !app_cons, !app_empty, app_assoc.
    destruct l as [|kv l]; [done|].
    pose proof (parse_members_text (kv :: l) ltac:(done) IH fuel rest ltac:(lia)) as Hp.
    rewrite app_cons, app_empty.
    destruct (members_text_head kv l (String "}" rest)) as (s & E).
    rewrite E in *. simpl parse_value. simpl skip_ws. cbv beta iota.
    change (is_char 125 dquote) with false. cbv iota. by rewrite Hp.
Qed.

Lemma size_le_length v : (size v ≤ String.length (stringify v))%nat.
Proof.
  induction v as [| b | n | s | l IH | l IH] using json_nested_ind.
  - simpl. lia.
  - destruct b; simpl; lia.
  - destruct (print_Z_head n) as (c & s & E & _). simpl. rewrite E. simpl. lia.
  - simpl. lia.
  - rewrite stringify_arr, size_arr, !length_app. simpl String.length.
    enough (elems_size l ≤ S (String.length (elems_text l)))%nat by lia.
    induction IH as [|x l Hx Hl IHl]; [simpl; lia|].
    destruct l as [|y l'].
    + simpl in *. lia.
    + change (elems_text (x :: y :: l')) with (stringify x +:+ "," +:+ elems_text (y :: l')).
      rewrite !length_app. simpl in *. lia.
  - rewrite stringify_obj, size_obj, !length_app. simpl String.length.
    enough (members_size l ≤ S (String.length (members_text l)))%nat by lia.
    induction IH as [|[k x] l Hx Hl IHl]; [simpl; lia|].
    destruct l as [|y l'].
    + simpl in *. rewrite !length_app. lia.
    + change (members_text ((k, x) :: y :: l'))
        with (quote k +:+ ":" +:+ stringify x +:+ "," +:+ members_text (y :: l')).
      rewrite !length_app. simpl in *. lia.
Qed.

Lemma app_empty_r s : s +:+ "" = s.
Proof. induction s as [|c s IH]; [done|]. by rewrite app_cons, IH. Qed.

(** [JSON.parse(JSON.stringify(v))] gives [v] back. *)
Theorem parse_stringify v : parse (stringify v) = Some v.
Proof.
  unfold parse.
  pose proof (parse_value_stringify v (String.length (stringify v)) ""
                (size_le_length v) eq_refl) as H.
  rewrite app_empty_r in H. by rewrite H.
Qed.
End JSONFacts.

(** ** The persistence adapter *)

Module StorageFacts.
Import JSON Browser Types Services JSONFacts.

Lemma truthy_stringify v : truthy (stringify v) = true.
Proof. by destruct (stringify_head v) as (c & s & -> & _). Qed.

Lemma parse_empty : JSON.parse "" = None.
Proof. reflexivity. Qed.

Lemma setItem_accepted ls key value :
  accepts ls key value = true →
  setItem ls key value = inr (mkStorage (<[key := value]> (entries ls)) (quota ls) (denied ls)).
Proof.
  unfold accepts, setItem. intros [Hd Hq]%andb_true_iff.
  apply negb_true_iff in Hd. by rewrite Hd, Hq.
Qed.

Lemma setItem_rejected ls key value :
  accepts ls key value = false → ∃ e, setItem ls key value = inl e.
Proof.
  unfold accepts, setItem. destruct (denied ls); simpl; [by eexists|].
  intros ->. by eexists.
Qed.

Lemma saveItemsToStorage_rejected key items ls :
  accepts ls key (stringify items) = false → saveItemsToStorage key items ls = ls.
Proof.
  intros H. unfold saveItemsToStorage. by destruct (setItem_rejected _ _ _ H) as [e ->].
Qed.

Lemma getItems_saveItems key items ls :
  accepts ls key (stringify items) = true →
  getItemsFromStorage key (saveItemsToStorage key items ls) = items.
Proof.
  intros H. unfold saveItemsToStorage. rewrite (setItem_accepted _ _ _ H).
  unfold getItemsFromStorage, getItem. simpl.
  apply andb_true_iff in H as [Hd%negb_true_iff _]. rewrite Hd.
  rewrite lookup_insert_eq, truthy_stringify. by rewrite parse_stringify.
Qed.

Lemma saveItemsToStorage_denied key items ls :
  denied (saveItemsToStorage key items ls) = denied ls.
Proof.
  unfold saveItemsToStorage, setItem. destruct (denied ls) eqn:E; [done|].
  by destruct (_ <=? _)%N.
Qed.

Lemma saveItemsToStorage_other key key' items ls :
  key ≠ key' → entries (saveItemsToStorage key items ls) !! key' = entries ls !! key'.
Proof.
  intros Hne. unfold saveItemsToStorage, setItem. destruct (denied ls); [done|].
  destruct (_ <=? _)%N; [|done]. simpl. by rewrite lookup_insert_ne.
Qed.

Lemma getItem_saveItems_other key key' items ls :
  key ≠ key' → getItem (saveItemsToStorage key items ls) key' = getItem ls key'.
Proof.
  intros Hne. unfold getItem.
  by rewrite saveItemsToStorage_denied, saveItemsToStorage_other.
Qed.

Lemma getItems_saveItems_other key key' items ls :
  key ≠ key' →
  getItemsFromStorage key' (saveItemsToStorage key items ls) = getItemsFromStorage key' ls.
Proof.
  intros Hne. unfold getItemsFromStorage. by rewrite getItem_saveItems_other.
Qed.

End StorageFacts.

(** ** The controller *)

Module ControllerFacts.
Import JSON Browser Types Services Components App JSONFacts StorageFacts Examples.

Section Items.
Context `{Item T}.
Implicit Types (item : T) (items : list T).

Lemma length_replace_by_id item items :
  length (replace_by_id item items) = length items.
Proof. apply length_fmap. Qed.

Lemma lookup_replace_by_id item items k x :
  items !! k = Some x →
  replace_by_id item items !! k
  = Some (if decide (id (base x) = id (base item)) then item else x).
Proof. intros Hk. unfold replace_by_id. by rewrite list_lookup_fmap, Hk. Qed.

Lemma replace_by_id_idemp item items :
  replace_by_id item (replace_by_id item items) = replace_by_id item items.
Proof.
  unfold replace_by_id. rewrite <- list_fmap_compose. apply list_fmap_ext.
  intros k x _. simpl. repeat case_decide; done.
Qed.

Lemma filter_id_replace_by_id item items :
  NoDup ((λ x, id (base x)) <$> items) → id (base item) ∈ ((λ x, id (base x)) <$> items) →
  filter (λ x, id (base x) = id (base item)) (replace_by_id item items) = [item].
Proof.
  induction items as [|y items IH]; intros Hnd Hin.
  - by apply elem_of_nil in Hin.
  - rewrite fmap_cons in Hnd, Hin. apply NoDup_cons in Hnd as [Hy Hnd].
    unfold replace_by_id in *. rewrite fmap_cons.
    destruct (decide (id (base y) = id (base item))) as [E|E].
    + rewrite filter_cons_True by done. f_equal.
      rewrite E in Hy. clear IH Hin.
      induction items as [|z items IH]; [done|].
      rewrite fmap_cons in Hy, Hnd. apply not_elem_of_cons in Hy as [Hz Hy].
      apply NoDup_cons in Hnd as [_ Hnd].
      rewrite fmap_cons. case_decide; [congruence|].
      rewrite filter_cons_False by done. by apply IH.
    + rewrite filter_cons_False by done. apply IH; [done|].
      apply elem_of_cons in Hin as [Hin|Hin]; [congruence|done].
Qed.

Lemma filter_id_fresh item items :
  id (base item) ∉ ((λ x, id (base x)) <$> items) →
  filter (λ x, id (base x) = id (base item)) items = [].
Proof.
  induction items as [|y items IH]; [done|].
  rewrite fmap_cons. intros [Hy Hin]%not_elem_of_cons.
  rewrite filter_cons_False by congruence. by apply IH.
Qed.

Lemma filter_id_append item items :
  id (base item) ∉ ((λ x, id (base x)) <$> items) →
  filter (λ x, id (base x) = id (base item)) (items ++ [item]) = [item].
Proof.
  intros Hin. rewrite filter_app, filter_id_fresh by done.
  by rewrite filter_cons_True.
Qed.

Lemma without_id_spec i items x : x ∈ without_id i items ↔ x ∈ items ∧ id (base x) ≠ i.
Proof. unfold without_id. rewrite list_elem_of_filter. tauto. Qed.

Lemma length_without_id i items :
  (length (without_id i items)
   + length (filter (λ x, id (base x) = i) items) = length items)%nat.
Proof.
  unfold without_id. induction items as [|y items IH]; [done|].
  destruct (decide (id (base y) = i)).
  - rewrite filter_cons_False by tauto. rewrite filter_cons_True by done. simpl. lia.
  - rewrite filter_cons_True by done. rewrite filter_cons_False by done. simpl. lia.
Qed.

Lemma with_id_without_id i items :
  filter (λ x, id (base x) = i) (without_id i items) = [].
Proof.
  unfold without_id. induction items as [|y items IH]; [done|].
  destruct (decide (id (base y) = i)).
  - by rewrite filter_cons_False by tauto.
  - rewrite filter_cons_True by done. by rewrite filter_cons_False.
Qed.
End Items.

Lemma fmap_replace_by_id `{Item T} `{Item U} (f : T → U) item (items : list T) :
  (∀ x, base (f x) = base x) →
  f <$> replace_by_id item items = replace_by_id (f item) (f <$> items).
Proof.
  intros Hf. unfold replace_by_id. rewrite <- !list_fmap_compose.
  apply list_fmap_ext. intros k x _. simpl. rewrite !Hf. by case_decide.
Qed.

Lemma fmap_saved `{Item T} `{Item U} (f : T → U) editing item (items : list T) :
  (∀ x, base (f x) = base x) →
  f <$> saved editing items item = saved editing (f <$> items) (f item).
Proof.
  intros Hf. destruct editing; simpl.
  - by apply fmap_replace_by_id.
  - by rewrite fmap_app.
Qed.

Lemma fmap_without_id `{Item T} `{Item U} (f : T → U) i (items : list T) :
  (∀ x, base (f x) = base x) →
  f <$> without_id i items = without_id i (f <$> items).
Proof.
  intros Hf. unfold without_id. induction items as [|y items IH]; [done|].
  rewrite fmap_cons. destruct (decide (id (base y) = i)).
  - rewrite !filter_cons_False; [done| |]; rewrite ?Hf; tauto.
  - rewrite !filter_cons_True; [|by rewrite ?Hf..]. by rewrite fmap_cons, IH.
Qed.

Lemma collection_fmap `{Item T} `{Item U} (f : T → U) (items : list T) :
  (∀ x, to_json (f x) = to_json x) → collection (f <$> items) = collection items.
Proof.
  intros Hf. unfold collection. f_equal. rewrite <- list_fmap_compose.
  apply list_fmap_ext. intros k x _. apply Hf.
Qed.

(** The save handlers, by category. *)
Lemma activities_save I st :
  activities (type I) (save I st) = saved (editingItem st) (activities (type I) st) I.
Proof. destruct I; simpl; by rewrite fmap_saved. Qed.

Lemma localStorage_save I st :
  localStorage (save I st)
  = saveItemsToStorage (STORAGE_KEY (type I))
      (collection (saved (editingItem st) (activities (type I) st) I)) (localStorage st).
Proof.
  destruct I; simpl; unfold saveMovies, saveBooks, saveEvents;
    by rewrite <- fmap_saved, collection_fmap.
Qed.

Lemma editingItem_save I st : editingItem (save I st) = None.
Proof. by destruct I. Qed.

Lemma activities_save_other I ty st :
  ty ≠ type I → activities ty (save I st) = activities ty st.
Proof. by destruct I, ty. Qed.

Lemma load_eq ty ls : load ty ls = getItemsFromStorage (STORAGE_KEY ty) ls.
Proof. by destruct ty. Qed.

Lemma STORAGE_KEY_inj : Inj (=) (=) STORAGE_KEY.
Proof. by intros [] [] ?. Qed.

Lemma activities_handleOpenModal e ty st :
  activities ty (handleOpenModal e st) = activities ty st.
Proof. by destruct ty. Qed.

(** The delete handler, by category. *)
Lemma activities_handleDelete window_confirm i ty st :
  window_confirm confirm_message = true →
  activities ty (handleDelete window_confirm i ty st) = without_id i (activities ty st).
Proof.
  intros Hc. unfold handleDelete. rewrite Hc.
  destruct ty; simpl; by rewrite fmap_without_id.
Qed.

Lemma localStorage_handleDelete window_confirm i ty st :
  window_confirm confirm_message = true →
  localStorage (handleDelete window_confirm i ty st)
  = saveItemsToStorage (STORAGE_KEY ty) (collection (without_id i (activities ty st)))
      (localStorage st).
Proof.
  intros Hc. unfold handleDelete. rewrite Hc.
  destruct ty; simpl; unfold saveMovies, saveBooks, saveEvents;
    by rewrite <- fmap_without_id, collection_fmap.
Qed.

Lemma activities_handleDelete_other window_confirm i C ty st :
  ty ≠ C → activities ty (handleDelete window_confirm i C st) = activities ty st.
Proof. unfold handleDelete. destruct (window_confirm _); [|done]. by destruct C, ty. Qed.

Lemma handleDelete_declined window_confirm i ty st :
  window_confirm confirm_message = false → handleDelete window_confirm i ty st = st.
Proof. intros Hc. unfold handleDelete. by rewrite Hc. Qed.

End ControllerFacts.

Module ControllerTheorems.
Import JSON Browser Types Services Components App JSONFacts StorageFacts Examples.
Import ControllerFacts Sentences.

(** C1, as stated, fails: with the edit form closed, an item whose id is
    already in the collection is appended, not put in place of the record. *)
Lemma save_decided_by_id_fails :
  ¬ save_decided_by_id (listing [dune] None) (AMovie dune_again).
Proof.
  intros (Hreplace & _). 
  assert (id (AMovie dune_again) ∈ ids (activities movie (listing [dune] None))) as Hin
    by apply list_elem_of_here.
  specialize (Hreplace Hin). rewrite activities_save in Hreplace. discriminate Hreplace.
Qed.

(** C1, amended: save is decided by the edit slot.  With an item in the
    slot the collection of the item's category becomes the old one with
    every record of that id replaced by the item; with the slot empty the
    item is appended.  The whole resulting collection goes through the
    adapter under the key of the category; where the storage takes the
    write, a load gives that collection back; and it holds exactly one
    record with the id of the item, the item itself, whenever the ids were
    distinct and the slot was occupied exactly when the id was present. *)
Theorem save_spec (st : State) (I : Activity) :
  let old := activities (type I) st in
  let st' := save I st in
  let new := activities (type I) st' in
  (is_Some (editingItem st) →
     new = replace_by_id I old ∧ length new = length old
     ∧ ∀ k (x : Activity), old !! k = Some x →
         new !! k = Some (if decide (id x = id I) then I else x))
  ∧ (editingItem st = None → new = old ++ [I])
  ∧ localStorage st'
    = saveItemsToStorage (STORAGE_KEY (type I)) (collection new) (localStorage st)
  ∧ (accepts (localStorage st) (STORAGE_KEY (type I)) (stringify (collection new)) = true →
     load (type I) (localStorage st') = collection new)
  ∧ (NoDup (ids old) → (is_Some (editingItem st) ↔ id I ∈ ids old) →
     with_id (id I) new = [I]).
Proof.
  intros old st' new. subst old st' new.
  rewrite localStorage_save, !activities_save, load_eq. repeat split.
  - by destruct H as [e ->].
  - destruct H as [e ->]. apply length_replace_by_id.
  - destruct H as [e ->]. intros k x Hk.
    by apply (lookup_replace_by_id (H := Activity_Item) I).
  - by intros ->.
  - apply getItems_saveItems.
  - intros Hnd Hiff. destruct (editingItem st) as [e|]; simpl.
    + apply (filter_id_replace_by_id (H := Activity_Item) I); [done|]. apply Hiff.
      by eexists.
    + apply (filter_id_append (H := Activity_Item) I). intros Hin. apply Hiff in Hin.
      by destruct Hin.
Qed.

(** C3, as stated, fails: the reduced collection is handed to the storage,
    but a storage that refuses the write keeps what it held.  On the full
    storage a confirmed delete of [dune] leaves [arrival] alone on the
    page, while a load still gives the collection with [dune] in it. *)
Lemma delete_persists_fails : ¬ delete_persists (λ _, true) "7d3c" movie crowded.
Proof.
  intros H. destruct (H eq_refl) as [Hyes _].
  destruct (Hyes eq_refl) as (_ & _ & Hload).
  vm_compute in Hload. discriminate Hload.
Qed.

(** C3, amended: delete proceeds only on confirmation.  A confirmed
    delete leaves in memory the collection without the records of the id,
    none of that id, one record fewer when exactly one carried it, and
    hands that whole collection to the persistence adapter under the key
    of the category.  When the storage takes the write, a load gives that
    collection; when it refuses, the storage is as it was and no error
    reaches the caller.  A declined delete changes neither the collections
    nor the storage, whatever the collection holds. *)
Theorem delete_spec (window_confirm : string → bool) (i : string) (ty : ActivityType)
    (st : State) :
  let st' := handleDelete window_confirm i ty st in
  let new := activities ty st' in
  (window_confirm confirm_message = true →
     new = without_id i (activities ty st)
     ∧ with_id i new = []
     ∧ (length (with_id i (activities ty st)) = 1%nat →
        length new = (length (activities ty st) - 1)%nat)
     ∧ localStorage st'
       = saveItemsToStorage (STORAGE_KEY ty) (collection new) (localStorage st)
     ∧ (accepts (localStorage st) (STORAGE_KEY ty) (stringify (collection new)) = true →
        load ty (localStorage st') = collection new)
     ∧ (accepts (localStorage st) (STORAGE_KEY ty) (stringify (collection new)) = false →
        localStorage st' = localStorage st))
  ∧ (window_confirm confirm_message = false → st' = st).
Proof.
  intros st' new. subst st' new. split.
  - intros Hc. rewrite localStorage_handleDelete, !activities_handleDelete, load_eq by done.
    split; [done|]. split; [apply (with_id_without_id (H := Activity_Item) i)|].
    split; [|split; [done|split]].
    + intros Hone.
      pose proof (length_without_id (H := Activity_Item) i (activities ty st)) as Hlen.
      unfold with_id in Hone. simpl in *. lia.
    + apply getItems_saveItems.
    + apply saveItemsToStorage_rejected.
  - apply handleDelete_declined.
Qed.

(** C6, as stated, fails: the first save closes the edit form, so the
    second one finds the slot empty and appends. *)
Lemma save_twice_is_save_once_fails :
  ¬ save_twice_is_save_once (listing [dune] (Some (AMovie dune))) (AMovie dune).
Proof.
  intros H. 
  assert (id (AMovie dune) ∈ ids (activities movie (listing [dune] (Some (AMovie dune)))))
    as Hin by apply list_elem_of_here.
  specialize (H Hin). rewrite !activities_save, editingItem_save in H. discriminate H.
Qed.

(** C6, amended: a save made from the edit form is idempotent.  When the
    form is opened on an item before each of two saves of the same item,
    the second save leaves the collection as the first one made it, of the
    size it had before. *)
Theorem save_from_edit_form_idempotent (st : State) (I e e' : Activity) :
  id I ∈ ids (activities (type I) st) →
  let once := save I (handleOpenModal (Some e) st) in
  let twice := save I (handleOpenModal (Some e') once) in
  activities (type I) twice = activities (type I) once
  ∧ length (activities (type I) twice) = length (activities (type I) st).
Proof.
  intros _ once twice. subst once twice.
  rewrite !activities_save, !activities_handleOpenModal. simpl.
  rewrite !activities_save, !activities_handleOpenModal. simpl.
  rewrite replace_by_id_idemp. split; [done|]. apply length_replace_by_id.
Qed.

Lemma save_from_edit_form_idempotent_witness :
  let st := listing [dune] None in
  let I := AMovie dune_again in
  id I ∈ ids (activities (type I) st)
  ∧ activities movie (save I (handleOpenModal (Some I) (save I (handleOpenModal (Some I) st))))
    = [AMovie dune_again].
Proof.
  intros st I.
  assert (Hin : id I ∈ ids (activities (type I) st)) by apply list_elem_of_here.
  split; [exact Hin|].
  destruct (save_from_edit_form_idempotent st I I I Hin) as [Heq _].
  etrans; [exact Heq|reflexivity].
Defined.

(** C9: a mutation stays in its category.  A save, or a delete whatever
    the answer to its prompt, leaves the collections of the other
    categories as they were, and leaves every stored entry under another
    key as it was, so that a load of another category is unchanged. *)
Theorem mutation_frame (st : State) (C ty : ActivityType) :
  ty ≠ C →
  (∀ I, type I = C →
     activities ty (save I st) = activities ty st
     ∧ (∀ key, key ≠ STORAGE_KEY C →
          entries (localStorage (save I st)) !! key = entries (localStorage st) !! key)
     ∧ load ty (localStorage (save I st)) = load ty (localStorage st))
  ∧ (∀ window_confirm i,
       let st' := handleDelete window_confirm i C st in
       activities ty st' = activities ty st
       ∧ (∀ key, key ≠ STORAGE_KEY C →
            entries (localStorage st') !! key = entries (localStorage st) !! key)
       ∧ load ty (localStorage st') = load ty (localStorage st)).
Proof.
  intros Hne. assert (STORAGE_KEY C ≠ STORAGE_KEY ty) as Hk
    by (intros E; by apply STORAGE_KEY_inj in E).
  split.
  - intros I <-. rewrite localStorage_save, !load_eq. repeat split.
    + by apply activities_save_other.
    + intros key Hkey. by apply saveItemsToStorage_other.
    + by apply getItems_saveItems_other.
  - intros window_confirm i st'. subst st'.
    destruct (window_confirm confirm_message) eqn:Hc.
    + rewrite localStorage_handleDelete, !load_eq by done. repeat split.
      * by apply activities_handleDelete_other.
      * intros key Hkey. by apply saveItemsToStorage_other.
      * by apply getItems_saveItems_other.
    + by rewrite handleDelete_declined.
Qed.

Lemma mutation_frame_witness :
  let st := mkState [dune] [] [] movie false None
              (mkStorage {[ Constants.STORAGE_KEY_BOOKS := "[]" ]} 4096 false) in
  movie ≠ book
  ∧ activities movie (save (ABook (mkBook (mkBase "b1" "Ulysses" "Long." 3 "2024-06-16")
                                     "Joyce" "")) st) = [AMovie dune]
  ∧ activities book (handleDelete (λ _, true) "7d3c" movie st) = [].
Proof.
  intros st.
  assert (Hbm : movie ≠ book) by discriminate.
  assert (Hmb : book ≠ movie) by discriminate.
  split; [exact Hbm|]. split.
  - destruct (mutation_frame st book movie Hbm) as [Hsave _].
    destruct (Hsave (ABook (mkBook (mkBase "b1" "Ulysses" "Long." 3 "2024-06-16") "Joyce" ""))
                eq_refl) as (-> & _). reflexivity.
  - destruct (mutation_frame st movie book Hmb) as [_ Hdel].
    destruct (Hdel (λ _, true) "7d3c") as (-> & _). reflexivity.
Defined.

(** The scenario of the specification: a first movie is logged, stored
    under the key of the movies, and deleted again. *)
Example dune_scenario :
  let logged := save (AMovie dune) (listing [] None) in
  let deleted := handleDelete (λ _, true) (id dune) movie logged in
  movies logged = [dune]
  ∧ load movie (localStorage logged) = collection [dune]
  ∧ entries (localStorage logged) !! Constants.STORAGE_KEY_MOVIES
    = Some (stringify (collection [dune]))
  ∧ entries (localStorage logged) !! Constants.STORAGE_KEY_BOOKS = None
  ∧ movies deleted = []
  ∧ entries (localStorage deleted) !! Constants.STORAGE_KEY_MOVIES = Some "[]".
Proof. vm_compute. by repeat split. Qed.

End ControllerTheorems.

(** ** The services *)

Module ServicesTheorems.
Import JSON Browser Types Services Components App JSONFacts StorageFacts Examples.
Import Sentences.

(** C2, as stated, fails: a stored value that parses is returned as it is,
    of the shape of the collection or not. *)
Lemma load_checks_shape_fails :
  ¬ load_checks_shape Movie Constants.STORAGE_KEY_MOVIES
      (mkStorage {[ Constants.STORAGE_KEY_MOVIES := stringify old_shape ]} 4096 false).
Proof.
  intros (_ & _ & _ & Hshape).
  specialize (Hshape (stringify old_shape) old_shape eq_refl (parse_stringify _) eq_refl).
  vm_compute in Hshape. discriminate Hshape.
Qed.

(** C2, amended: load never fails; it gives the empty collection when the
    storage cannot be read, when nothing is stored under the key and when
    the stored text does not parse, and it gives the parsed value as it is
    otherwise, with no check of its shape. *)
Theorem getItemsFromStorage_spec (key : string) (ls : Storage) :
  match getItem ls key with
  | inl e => getItemsFromStorage key ls = JArr []
  | inr None => getItemsFromStorage key ls = JArr []
  | inr (Some s) =>
      match JSON.parse s with
      | None => getItemsFromStorage key ls = JArr []
      | Some v => getItemsFromStorage key ls = v
      end
  end.
Proof.
  unfold getItemsFromStorage. destruct (getItem ls key) as [e|[s|]]; [done| |done].
  destruct s as [|c s]; [done|]. simpl truthy. cbv iota.
  by destruct (JSON.parse (String c s)).
Qed.

Lemma search_guard key query :
  negb (truthy query) || String.eqb key "YOUR_TMDB_API_KEY_HERE" = true
  ↔ query = "" ∨ key = Constants.TMDB_API_KEY.
Proof.
  rewrite orb_true_iff, String.eqb_eq. unfold Constants.TMDB_API_KEY.
  destruct query as [|c query]; simpl; split; intros [H|H]; auto; discriminate H.
Qed.

(** What a search settles to, case by case. *)
Lemma searchMovies_settle key net query :
  settle (searchMovies key net query)
  = if negb (truthy query) || String.eqb key "YOUR_TMDB_API_KEY_HERE"
    then ([], inr (val (JArr [])))
    else
      match encodeURIComponent query with
      | inl e => ([], inr (val (JArr [])))
      | inr q =>
          ([search_url key q],
           match net (search_url key q) with
           | NetworkFailure => inr (val (JArr []))
           | Response false body => inr (val (JArr []))
           | Response true body =>
               match JSON.parse body with
               | None => inr (val (JArr []))
               | Some data =>
                   match get_property data "results" with
                   | inl e => inr (val (JArr []))
                   | inr v => inr v
                   end
               end
           end)
      end.
Proof.
  unfold searchMovies, settle. destruct (_ || _); [reflexivity|].
  unfold Response_json, try_catch, mbind, Eff_bind, lift, fetch, throw, mret, Eff_ret.
  destruct (encodeURIComponent query) as [e|q]; [reflexivity|]. simpl.
  destruct (net (search_url key q)) as [|[] body]; simpl; [reflexivity| |reflexivity].
  destruct (JSON.parse body) as [data|]; [|reflexivity].
  destruct (get_property data "results"); reflexivity.
Qed.

(** C5, as stated, fails: a query that cannot be encoded for the URL
    raises inside the [try] block before [fetch] is reached, and the search
    gives the empty list with no request made. *)
Lemma search_requests_once_fails :
  ¬ search_requests_once "k" (λ _, Response true "{}") lone_surrogate.
Proof.
  intros (_ & _ & Hone). destruct Hone as (u & Hu & _); [done..|].
  rewrite searchMovies_settle in Hu. discriminate Hu.
Qed.

(** C5, amended: search never throws.  With an empty query or the
    placeholder key it gives the empty list and requests nothing.
    Otherwise, a query that can be encoded for the URL makes exactly one
    request, and the result is the empty list when the request fails or
    its response is not ok; a query that cannot be encoded (it holds an
    unpaired surrogate) makes no request and gives the empty list. *)
Theorem searchMovies_spec (key : string) (net : Network) (query : string) :
  let result := settle (searchMovies key net query) in
  (∃ v, result.2 = inr v)
  ∧ (query = "" ∨ key = Constants.TMDB_API_KEY →
       result = ([], inr (val (JArr []))))
  ∧ (query ≠ "" → key ≠ Constants.TMDB_API_KEY →
       match encodeURIComponent query with
       | inr q =>
           result.1 = [search_url key q]
           ∧ ((net (search_url key q) = NetworkFailure
               ∨ ∃ body, net (search_url key q) = Response false body) →
              result.2 = inr (val (JArr [])))
       | inl e => result = ([], inr (val (JArr [])))
       end).
Proof.
  intros result. subst result. rewrite searchMovies_settle.
  destruct (negb (truthy query) || String.eqb key "YOUR_TMDB_API_KEY_HERE") eqn:G.
  - apply search_guard in G. split; [by eexists|]. split; [done|]. tauto.
  - assert (¬ (query = "" ∨ key = Constants.TMDB_API_KEY)) as G'
      by (rewrite <- search_guard, G; done).
    split; [|split; [tauto|]].
    + destruct (encodeURIComponent query) as [e|q]; [by eexists|]. simpl.
      destruct (net _) as [|[] body]; [by eexists| |by eexists].
      destruct (JSON.parse body) as [data|]; [|by eexists].
      destruct (get_property data "results"); by eexists.
    + intros _ _. destruct (encodeURIComponent query) as [e|q]; [done|]. simpl.
      split; [done|]. intros [->|[body ->]]; done.
Qed.

(** C10: the body of an ok response is not checked.  Whatever the body
    parses to, the search resolves to the value of its [results] property
    as it is, a list or not: to the member of that name when the body is
    an object that has one, and to [undefined], not to a list, when it is
    an object without one, a number, a string, a boolean or an array.
    (Reading the property from [null] throws, which the [catch] turns into
    the empty list.) *)
Theorem searchMovies_unvalidated (key : string) (net : Network) (query q body : string)
    (data : json) :
  query ≠ "" → key ≠ Constants.TMDB_API_KEY →
  encodeURIComponent query = inr q →
  net (search_url key q) = Response true body →
  JSON.parse body = Some data →
  settle (searchMovies key net query)
  = ([search_url key q],
     inr match data with
         | JObj members =>
             match member "results" members with
             | Some results => val results
             | None => undefined
             end
         | JNull => val (JArr [])
         | _ => undefined
         end).
Proof.
  intros Hq Hk He Hn Hp. rewrite searchMovies_settle.
  assert (negb (truthy query) || String.eqb key "YOUR_TMDB_API_KEY_HERE" = false) as ->.
  { apply not_true_is_false. rewrite search_guard. tauto. }
  rewrite He, Hn, Hp. f_equal. destruct data as [| | | | |members]; simpl; try reflexivity.
  all: by destruct (member "results" members).
Qed.

Lemma searchMovies_unvalidated_witness :
  settle (searchMovies "k" (λ _, Response true "{}") "dune")
  = ([search_url "k" "dune"], inr undefined)
  ∧ settle (searchMovies "k" (λ _, Response true (stringify (JObj [("results", JNum 7)])))
              "dune")
    = ([search_url "k" "dune"], inr (val (JNum 7))).
Proof.
  split.
  - etrans; [|reflexivity].
    apply (searchMovies_unvalidated "k" (λ _, Response true "{}") "dune" "dune" "{}"
             (JObj []));
      first [discriminate | reflexivity].
  - etrans; [|reflexivity].
    apply (searchMovies_unvalidated "k"
             (λ _, Response true (stringify (JObj [("results", JNum 7)]))) "dune" "dune"
             (stringify (JObj [("results", JNum 7)])) (JObj [("results", JNum 7)]));
      first [discriminate | reflexivity | apply parse_stringify].
Defined.

End ServicesTheorems.


(** ** The calendar: a later day has a later time stamp *)

Module DateFacts.
Import Browser.

Lemma era_split Y :
  Y / 400 * 146097 + ((Y - Y / 400 * 400) * 365 + (Y - Y / 400 * 400) / 4
                      - (Y - Y / 400 * 400) / 100)
  = 365 * Y + Y / 4 - Y / 100 + Y / 400.
Proof.
  Z.div_mod_to_equations. lia.
Qed.

Lemma days_from_civil_eq y m d :
  days_from_civil y m d = days_before (march_year y m) + march_day m d - 719468.
Proof.
  unfold days_from_civil, days_before, march_year, march_day.
  generalize (if m <=? 2 then y - 1 else y). intros Y.
  generalize ((153 * (if 2 <? m then m - 3 else m + 9) + 2) / 5). intros D.
  pose proof (era_split Y). lia.
Qed.

Lemma days_before_mono a b : a ≤ b → days_before a ≤ days_before b.
Proof. unfold days_before. intros. Z.div_mod_to_equations. lia. Qed.

Lemma days_before_succ Y :
  days_before (Y + 1) = days_before Y + 365 + (if is_leap (Y + 1) then 1 else 0).
Proof.
  unfold days_before, is_leap.
  destruct (Z.eqb_spec ((Y + 1) mod 4) 0), (Z.eqb_spec ((Y + 1) mod 100) 0),
    (Z.eqb_spec ((Y + 1) mod 400) 0); simpl; Z.div_mod_to_equations; lia.
Qed.


Lemma month_cases m :
  1 ≤ m ≤ 12 →
  m = 1 ∨ m = 2 ∨ m = 3 ∨ m = 4 ∨ m = 5 ∨ m = 6 ∨ m = 7 ∨ m = 8 ∨ m = 9
  ∨ m = 10 ∨ m = 11 ∨ m = 12.
Proof. lia. Qed.

(** The day within the year that starts in March, and the first day past
    the month. *)
Lemma march_day_bounds y m d :
  valid_day (y, m, d) →
  0 ≤ march_day m d
  ∧ march_day m d < 365 + (if is_leap (march_year y m + 1) then 1 else 0).
Proof.
  intros [Hm Hd]. unfold march_year, march_day, days_in_month in *.
  destruct (month_cases m Hm) as [->|[->|[->|[->|[->|[->|[->|[->|[->|[->|[->| ->]]]]]]]]]]];
    cbn [Z.eqb Z.ltb Z.leb Z.compare Pos.compare Pos.compare_cont Pos.eqb orb Z.add Z.sub
         Z.mul Pos.add Pos.mul Z.opp Z.pos_sub Pos.pred_double Z.succ_double Z.pred_double
         Z.double Pos.succ Pos.add_carry] in *;
    repeat match goal with
       | |- context [(?a + 2) / 5] =>
           let v := eval vm_compute in ((a + 2) / 5) in
           change ((a + 2) / 5) with v
       end;
    try (replace (y - 1 + 1) with y by lia);
    destruct (is_leap _); lia.
Qed.

(** Within one year that starts in March, a later month starts past the
    end of an earlier one. *)
Lemma march_day_mono y1 m1 d1 y2 m2 d2 :
  valid_day (y1, m1, d1) → valid_day (y2, m2, d2) →
  march_year y1 m1 = march_year y2 m2 →
  earlier (y1, m1, d1) (y2, m2, d2) →
  march_day m1 d1 < march_day m2 d2.
Proof.
  intros [Hm1 Hd1] [Hm2 Hd2] HY He. simpl in He.
  unfold march_year, march_day, days_in_month in *.
  destruct (month_cases m1 Hm1) as [->|[->|[->|[->|[->|[->|[->|[->|[->|[->|[->| ->]]]]]]]]]]];
  destruct (month_cases m2 Hm2) as [->|[->|[->|[->|[->|[->|[->|[->|[->|[->|[->| ->]]]]]]]]]]];
    cbn [Z.eqb Z.ltb Z.leb Z.compare Pos.compare Pos.compare_cont Pos.eqb orb Z.add Z.sub
         Z.mul Pos.add Pos.mul Z.opp Z.pos_sub Pos.pred_double Z.succ_double Z.pred_double
         Z.double Pos.succ Pos.add_carry] in *;
    repeat match goal with
       | |- context [(?a + 2) / 5] =>
           let v := eval vm_compute in ((a + 2) / 5) in
           change ((a + 2) / 5) with v
       end;
    try lia;
    repeat match goal with H : context [is_leap ?y] |- _ => destruct (is_leap y) end; lia.
Qed.

Theorem days_from_civil_mono c1 c2 :
  valid_day c1 → valid_day c2 → earlier c1 c2 →
  (let '(y, m, d) := c1 in days_from_civil y m d)
  < (let '(y, m, d) := c2 in days_from_civil y m d).
Proof.
  destruct c1 as [[y1 m1] d1], c2 as [[y2 m2] d2]. intros H1 H2 He.
  rewrite !days_from_civil_eq.
  destruct (Z.lt_trichotomy (march_year y1 m1) (march_year y2 m2)) as [Hlt|[Heq|Hgt]].
  - pose proof (march_day_bounds _ _ _ H1) as [_ Hb1].
    pose proof (march_day_bounds _ _ _ H2) as [Hb2 _].
    pose proof (days_before_succ (march_year y1 m1)) as Hs.
    pose proof (days_before_mono (march_year y1 m1 + 1) (march_year y2 m2) ltac:(lia)).
    lia.
  - rewrite Heq. pose proof (march_day_mono _ _ _ _ _ _ H1 H2 Heq He). lia.
  - exfalso. destruct H1 as [Hm1 _], H2 as [Hm2 _]. simpl in He. unfold march_year in Hgt.
    destruct (Z.leb_spec m1 2), (Z.leb_spec m2 2); lia.
Qed.

Lemma calendar_date_valid s c : calendar_date s = Some c → valid_day c.
Proof.
  unfold calendar_date.
  do 11 (destruct s as [|? s]; try discriminate).
  repeat (destruct (digit _) as [?|]; [|discriminate]).
  destruct (_ && _) eqn:E; [|discriminate]. intros [= <-].
  repeat (apply andb_true_iff in E as [E ?]). unfold valid_day. lia.
Qed.

End DateFacts.

(** ** The listing *)

Module SortTheorems.
Import JSON Browser Types Services Components App Examples DateFacts.
Import Sentences.

Section Sort.
Context {A : Type} (comparefn : A → A → Number).

Lemma sort_insert_Permutation x l : sort_insert comparefn x l ≡ₚ x :: l.
Proof.
  induction l as [|y l IH]; [done|]. simpl.
  destruct (0 <? SortCompare comparefn x y); [|done].
  by rewrite IH, Permutation_swap.
Qed.

Lemma Array_sort_Permutation l : Array_sort comparefn l ≡ₚ l.
Proof.
  induction l as [|x l IH]; [done|]. simpl.
  by rewrite sort_insert_Permutation, IH.
Qed.
End Sort.

Lemma SortCompare_sortFn a b :
  dated a → dated b → SortCompare sortFn a b = time b - time a.
Proof.
  unfold dated, SortCompare, sortFn, time. by intros [ta ->] [tb ->].
Qed.

(** A later day of the calendar has a later time stamp. *)
Lemma time_earlier (a b : Activity) ca cb :
  calendar_date (date a) = Some ca → calendar_date (date b) = Some cb →
  earlier cb ca → time b < time a.
Proof.
  intros Ha Hb He. unfold time, Date_getTime. rewrite Ha, Hb.
  pose proof (days_from_civil_mono cb ca (calendar_date_valid _ _ Hb)
                (calendar_date_valid _ _ Ha) He) as Hlt.
  destruct ca as [[??]?], cb as [[??]?]. simpl. lia.
Qed.

#[local] Instance later_first_trans : Transitive later_first.
Proof. unfold later_first. intros a b c ??. lia. Qed.

Lemma sort_insert_sorted x l :
  dated x → Forall dated l → StronglySorted later_first l →
  StronglySorted later_first (sort_insert sortFn x l).
Proof.
  intros Hx Hl Hs. induction Hs as [|y l Hs IH Hy]; simpl.
  - by repeat constructor.
  - apply Forall_cons in Hl as [Hdy Hl].
    rewrite SortCompare_sortFn by done. destruct (Z.ltb_spec 0 (time y - time x)).
    + constructor; [by apply IH|].
      rewrite sort_insert_Permutation. constructor; [|done]. unfold later_first. lia.
    + constructor; [by constructor|]. constructor; [unfold later_first; lia|].
      eapply Forall_impl; [exact Hy|]. unfold later_first. intros z ?. lia.
Qed.

Lemma Array_sort_sorted l :
  Forall dated l → StronglySorted later_first (Array_sort sortFn l).
Proof.
  induction 1 as [|x l Hx Hl IH]; simpl; [constructor|].
  apply sort_insert_sorted; [done| |done]. by rewrite Array_sort_Permutation.
Qed.

Lemma StronglySorted_lookup {A} (R : relation A) l i j a b :
  StronglySorted R l → (i < j)%nat → l !! i = Some a → l !! j = Some b → R a b.
Proof.
  intros Hs. revert i j. induction Hs as [|x l Hs IH Hx]; intros i j Hij Hi Hj; [done|].
  destruct j as [|j]; [lia|]. simpl in Hj.
  destruct i as [|i]; simpl in Hi.
  - injection Hi as <-. rewrite Forall_forall in Hx. apply Hx.
    by eapply list_elem_of_lookup_2.
  - apply (IH i j); [lia|done..].
Qed.

Lemma sortedItems_eq st :
  sortedItems st = Array_sort sortFn (activities (currentView st) st).
Proof. unfold sortedItems. by destruct (currentView st). Qed.

(** C4, as stated, fails: a date that is not a date makes [sortFn] give
    [NaN], which the sort takes for a tie.  With [undated] between them,
    [arrival] of 2023-11-20 stays before [tenet] of 2024-07-04. *)
Lemma listing_by_date_fails : ¬ listing_by_date (listing [arrival; undated; tenet] None).
Proof.
  intros [_ H].
  specialize (H 2%nat 0%nat (AMovie tenet) (AMovie arrival) (2024, 7, 4) (2023, 11, 20)
                eq_refl eq_refl eq_refl eq_refl).
  assert (earlier (2023, 11, 20) (2024, 7, 4)) as He by (left; lia).
  specialize (H He). lia.
Qed.

(** C4, amended: the listing of any collection is the collection of the
    view in another order.  When every date of the collection is a
    calendar date, the order is by date, later dates first: an item with a
    later date (a later day of the calendar, a greater time stamp) stands
    before an item with an earlier one, and the dates read off the listing
    do not depend on the order in which the collection holds the items.
    With a date that is not a date in the collection, the order by date
    is not kept. *)
Theorem sortedItems_spec (st : State) :
  sortedItems st ≡ₚ activities (currentView st) st
  ∧ (Forall dated (activities (currentView st) st) →
     StronglySorted later_first (sortedItems st)
     ∧ (∀ i j a b, sortedItems st !! i = Some a → sortedItems st !! j = Some b →
          time b < time a → (i < j)%nat)
     ∧ (∀ i j (a b : Activity) ca cb,
          sortedItems st !! i = Some a → sortedItems st !! j = Some b →
          calendar_date (date a) = Some ca → calendar_date (date b) = Some cb →
          earlier cb ca → (i < j)%nat)
     ∧ (∀ st', currentView st' = currentView st →
          activities (currentView st) st' ≡ₚ activities (currentView st) st →
          time <$> sortedItems st' = time <$> sortedItems st)).
Proof.
  rewrite sortedItems_eq. split; [apply Array_sort_Permutation|]. intros Hd.
  pose proof (Array_sort_sorted _ Hd) as Hs.
  assert (∀ i j a b, Array_sort sortFn (activities (currentView st) st) !! i = Some a →
            Array_sort sortFn (activities (currentView st) st) !! j = Some b →
            time b < time a → (i < j)%nat) as Hbefore.
  { intros i j a b Hi Hj Hlt. destruct (decide (i < j)%nat) as [|Hge]; [done|exfalso].
    destruct (decide (i = j)) as [->|Hne]; [rewrite Hi in Hj; injection Hj as ->; lia|].
    pose proof (StronglySorted_lookup _ _ j i b a Hs ltac:(lia) Hj Hi) as Hba.
    unfold later_first in Hba. lia. }
  split; [done|]. split; [done|]. split.
  - intros i j a b ca cb Hi Hj Ha Hb He. apply (Hbefore i j a b Hi Hj).
    by apply (time_earlier a b ca cb).
  - intros st' Hv Hp. rewrite sortedItems_eq, Hv.
    assert (Forall dated (activities (currentView st) st')) as Hd' by (by rewrite Hp).
    apply (StronglySorted_unique_strong (λ x y : Z, y ≤ x)).
    + intros ?? _ _ ??. lia.
    + apply (StronglySorted_fmap time later_first); [done|]. by apply Array_sort_sorted.
    + by apply (StronglySorted_fmap time later_first).
    + by rewrite !Array_sort_Permutation, Hp.
Qed.

Lemma sortedItems_spec_witness :
  let st := listing [arrival; dune; tenet] None in
  Forall dated (activities (currentView st) st)
  ∧ sortedItems st = [AMovie tenet; AMovie dune; AMovie arrival]
  ∧ StronglySorted later_first (sortedItems st).
Proof.
  intros st.
  assert (Hd : Forall dated (activities (currentView st) st))
    by (repeat constructor; by eexists).
  split; [exact Hd|]. split; [reflexivity|].
  exact (proj1 (proj2 (sortedItems_spec st) Hd)).
Defined.

(** An item whose date is not a date breaks the order of the others:
    every comparison with it counts as a tie. *)
Example sortedItems_undated :
  sortedItems (listing [arrival; undated; tenet] None)
  = [AMovie arrival; AMovie undated; AMovie tenet].
Proof. reflexivity. Qed.

End SortTheorems.

(** ** The forms *)

Module FormTheorems.
Import JSON Browser Types Services Components App Examples.

Lemma truthy_nonempty s : s ≠ "" → truthy s = true.
Proof. by destruct s. Qed.

Lemma getModalContent_editing a st :
  editingItem st = Some a →
  (getModalContent st).2
  = match a with
    | AMovie m => MovieForm (Some m)
    | ABook b => BookForm (Some b)
    | AEvent e => EventForm (Some e)
    end.
Proof. unfold getModalContent. intros ->. by destruct a. Qed.

Lemma getModalContent_creating st :
  editingItem st = None →
  (getModalContent st).2
  = match currentView st with
    | movie => MovieForm None
    | book => BookForm None
    | event => EventForm None
    end.
Proof. unfold getModalContent. intros ->. by destruct (currentView st). Qed.

(** A form takes the fields of its own category. *)
Lemma Form_handleSubmit_total st formData randomUUID :
  FormData_type formData
  = match editingItem st with Some a => type a | None => currentView st end →
  is_Some (Form_handleSubmit (getModalContent st).2 formData randomUUID).
Proof.
  unfold getModalContent.
  destruct (editingItem st) as [[]|], formData; simpl;
    try destruct (currentView st); simpl; try discriminate; by eexists.
Qed.

(** Submitting the edit form of an item that has an id. *)
Lemma edit_form_submit st (a : Activity) formData randomUUID (r : Activity) :
  editingItem st = Some a → id a ≠ "" →
  Form_handleSubmit (getModalContent st).2 formData randomUUID = Some r →
  id r = id a ∧ type r = type a.
Proof.
  intros He Hid. rewrite (getModalContent_editing a st He).
  destruct a, formData; simpl; try discriminate; intros [= <-]; simpl;
    unfold final_id; simpl; by rewrite truthy_nonempty.
Qed.

(** Submitting the form with nothing being edited. *)
Lemma create_form_submit st formData randomUUID (r : Activity) :
  editingItem st = None →
  Form_handleSubmit (getModalContent st).2 formData randomUUID = Some r →
  id r = randomUUID ∧ type r = currentView st.
Proof.
  intros He. rewrite (getModalContent_creating st He).
  destruct (currentView st), formData; simpl; try discriminate; by intros [= <-].
Qed.




End FormTheorems.

(** ** The debounced search *)

Module DebounceTheorems.
Import Types Services Components Examples Sentences.

Section Debounce.
Variable delay : nat.

Lemma run_app es es' s : run delay (es ++ es') s = run delay es' (run delay es s).
Proof. apply foldl_app. Qed.

(** A change of the text clears the pending timeout and arms a new one. *)
Lemma setSearchQuery_restarts v s :
  v ≠ searchQuery s →
  setSearchQuery delay v s
  = mkSearch v (debouncedValue s) (Some (delay, v)) (searched s).
Proof. intros Hv. unfold setSearchQuery. by rewrite decide_False. Qed.

(** Within the window the timeout stays pending. *)
Lemma elapse_pending dt v s :
  handler s = Some (delay, v) → (dt < delay)%nat →
  elapse dt s
  = mkSearch (searchQuery s) (debouncedValue s) (Some (delay - dt, v)%nat) (searched s).
Proof.
  intros Hh Hdt. unfold elapse. rewrite Hh.
  destruct (Nat.leb_spec delay dt); [lia|done].
Qed.

(** Time passes the same in one stretch or in two. *)
Lemma elapse_elapse a b s : elapse b (elapse a s) = elapse (a + b) s.
Proof.
  unfold elapse. destruct (handler s) as [[remaining v]|] eqn:Hh; [|by rewrite Hh].
  destruct (Nat.leb_spec remaining a), (Nat.leb_spec remaining (a + b)); try lia.
  - unfold timeout, setDebouncedValue. simpl. by case_decide.
  - simpl. by destruct (Nat.leb_spec (remaining - a) b); [|lia].
  - simpl. destruct (Nat.leb_spec (remaining - a) b); [lia|].
    by replace (remaining - a - b)%nat with (remaining - (a + b))%nat by lia.
Qed.

Lemma final_query_cons first g v more :
  final_query first ((g, v) :: more) = final_query v more.
Proof.
  unfold final_query. rewrite !fmap_cons. simpl snd.
  rewrite (last_cons_cons first v). destruct (last (v :: (snd <$> more))) eqn:E; [done|].
  by rewrite last_None in E.
Qed.

(** After a burst the timeout is pending, whole, for the last text, and
    nothing else has moved. *)
Lemma run_burst more : ∀ v debounced calls,
  all_changes v (snd <$> more) →
  Forall (λ gv, gv.1 < delay)%nat more →
  run delay (flat_map (λ gv, [Elapse gv.1; Change gv.2]) more)
    (mkSearch v debounced (Some (delay, v)) calls)
  = mkSearch (final_query v more) debounced (Some (delay, final_query v more)) calls.
Proof.
  induction more as [|[g w] more IH]; intros v debounced calls Hall Hgaps; [done|].
  rewrite fmap_cons in Hall. destruct Hall as [Hw Hall].
  apply Forall_cons in Hgaps as [Hg Hgaps]. simpl in Hg.
  rewrite final_query_cons. simpl flat_map.
  change (run delay (Elapse g :: Change w :: ?es) ?s)
    with (run delay es (setSearchQuery delay w (elapse g s))).
  rewrite (elapse_pending g v) by done. rewrite setSearchQuery_restarts by done.
  by apply IH.
Qed.

(** A burst and the pause after it. *)
Lemma run_typing first more pause s :
  all_changes (searchQuery s) (first :: (snd <$> more)) →
  Forall (λ gv, gv.1 < delay)%nat more →
  (delay ≤ pause)%nat →
  run delay (typing first more pause) s
  = timeout (final_query first more)
      (mkSearch (final_query first more) (debouncedValue s)
         (Some (delay, final_query first more)) (searched s)).
Proof.
  intros [Hfirst Hall] Hgaps Hpause. unfold typing.
  change (run delay (Change first :: ?es) ?s)
    with (run delay es (setSearchQuery delay first s)).
  rewrite run_app, setSearchQuery_restarts by done. rewrite run_burst by done.
  simpl. unfold elapse. simpl. by destruct (Nat.leb_spec delay pause); [|lia].
Qed.
End Debounce.

(** C8, as stated, fails: when the burst ends on the empty text, the search
    effect does not call the client at all. *)
Lemma burst_searches_last_fails :
  ¬ burst_searches_last (mount MovieForm_delay) "d" [(120%nat, "")] 500.
Proof.
  intros H. unfold burst_searches_last in H.
  assert (Hc : all_changes (searchQuery (mount MovieForm_delay))
                 ("d" :: (snd <$> [(120%nat, "")]))) by (by repeat split).
  assert (Hg : Forall (λ gv : nat * string, gv.1 < MovieForm_delay)%nat [(120%nat, "")])
    by (repeat constructor; simpl; unfold MovieForm_delay; lia).
  specialize (H Hc Hg ltac:(unfold MovieForm_delay; lia)). discriminate H.
Qed.

(** C8, amended: every change of the text clears the pending timeout and
    arms a new one; after a burst of changes, each within the window of the
    one before, and a pause of at least the delay, the debounced value is
    the last text, and the client has been called at most once more: once,
    for the last text, when that text is not empty and differs from the
    value debounced before the burst, and not at all otherwise. *)
Theorem burst_searches_at_most_once (s : Search) (first : string)
    (more : list (nat * string)) (pause : nat) :
  all_changes (searchQuery s) (first :: (snd <$> more)) →
  Forall (λ gv, gv.1 < MovieForm_delay)%nat more →
  (MovieForm_delay ≤ pause)%nat →
  let last := final_query first more in
  let s' := run MovieForm_delay (typing first more pause) s in
  (∀ v t, v ≠ searchQuery t →
     handler (setSearchQuery MovieForm_delay v t) = Some (MovieForm_delay, v))
  ∧ debouncedValue s' = last
  ∧ handler s' = None
  ∧ searched s'
    = searched s ++ (if truthy last && bool_decide (last ≠ debouncedValue s)
                     then [last] else []).
Proof.
  intros Hc Hg Hp last s'. subst s'. rewrite run_typing by done. fold last.
  split; [intros v t Hv; by rewrite setSearchQuery_restarts|].
  unfold timeout, setDebouncedValue, search. simpl.
  destruct (decide (last = debouncedValue s)) as [E|E]; simpl.
  - rewrite bool_decide_eq_false_2 by tauto. rewrite andb_false_r, app_nil_r. done.
  - rewrite bool_decide_eq_true_2 by done. rewrite andb_true_r.
    destruct (truthy last); [done|]. by rewrite app_nil_r.
Qed.

Lemma burst_searches_at_most_once_witness :
  let more := [(90%nat, "du"); (140%nat, "dun"); (60%nat, "dune")] in
  all_changes (searchQuery (mount MovieForm_delay)) ("d" :: (snd <$> more))
  ∧ searched (run MovieForm_delay (typing "d" more 500) (mount MovieForm_delay)) = ["dune"].
Proof.
  intros more.
  assert (Hc : all_changes (searchQuery (mount MovieForm_delay)) ("d" :: (snd <$> more)))
    by (by repeat split).
  assert (Hg : Forall (λ gv : nat * string, gv.1 < MovieForm_delay)%nat more)
    by (repeat constructor; simpl; unfold MovieForm_delay; lia).
  assert (Hp : (MovieForm_delay ≤ 500)%nat) by (unfold MovieForm_delay; lia).
  split; [exact Hc|].
  destruct (burst_searches_at_most_once (mount MovieForm_delay) "d" more 500 Hc Hg Hp)
    as (_ & _ & _ & Hs).
  etrans; [exact Hs|reflexivity].
Defined.

End DebounceTheorems.

(** ** Reading back what was written

    The records of the three categories survive the way to JSON and back. *)

Module ReloadFacts.
Import JSON Browser Types Services Components App JSONFacts StorageFacts ControllerFacts.

Lemma Movie_of_to_json (m : Movie) : of_json (to_json m) = Some m.
Proof. destruct m as [[] ? [] ?]; reflexivity. Qed.

Lemma Book_of_to_json (b : Book) : of_json (to_json b) = Some b.
Proof. destruct b as [[] ? ?]; reflexivity. Qed.

Lemma Event_of_to_json (e : Event) : of_json (to_json e) = Some e.
Proof. destruct e as [[] ?]; reflexivity. Qed.

Lemma items_of_collection `{Item T} (items : list T) :
  (∀ x : T, of_json (to_json x) = Some x) →
  items_of_json (collection items) = Some items.
Proof.
  intros Hrt. unfold items_of_json, collection. apply mapM_Some.
  induction items as [|x items IH]; constructor; [apply Hrt|done].
Qed.

Lemma collection_activities ty st :
  collection (activities ty st)
  = match ty with
    | movie => collection (movies st)
    | book => collection (books st)
    | event => collection (events st)
    end.
Proof. destruct ty; simpl; by rewrite collection_fmap. Qed.

End ReloadFacts.

(** ** The page as a whole: shared lemmas *)

Module PageFacts.
Import JSON Browser Types Services Components App JSONFacts StorageFacts ControllerFacts.
Import SortTheorems FormTheorems ReloadFacts.

Section Items.
Context `{Item T}.
Implicit Types (item : T) (items : list T).

(** Replacing by id leaves every id where it was. *)
Lemma ids_replace_by_id item items :
  (λ x, id (base x)) <$> replace_by_id item items = (λ x, id (base x)) <$> items.
Proof.
  unfold replace_by_id. rewrite <- list_fmap_compose. apply list_fmap_ext.
  intros k x _. simpl. by case_decide.
Qed.

Lemma replace_by_id_absent item items :
  id (base item) ∉ ((λ x, id (base x)) <$> items) → replace_by_id item items = items.
Proof.
  intros Hin. unfold replace_by_id. rewrite <- (list_fmap_id items) at 2.
  apply list_fmap_ext. intros k x Hk. simpl. case_decide as E; [|done].
  exfalso. apply Hin. rewrite <- E. apply list_elem_of_fmap. exists x. split; [done|].
  by eapply list_elem_of_lookup_2.
Qed.

(** With distinct ids, replacing by id is an update in place. *)
Lemma replace_by_id_insert item items k x :
  NoDup ((λ x, id (base x)) <$> items) → items !! k = Some x →
  id (base x) = id (base item) →
  replace_by_id item items = <[k := item]> items.
Proof.
  intros Hnd Hk Hid. apply list_eq. intros j.
  destruct (decide (j = k)) as [->|Hjk].
  - rewrite list_lookup_insert_eq by (by eapply lookup_lt_Some).
    rewrite (lookup_replace_by_id _ _ _ _ Hk). by rewrite decide_True.
  - rewrite list_lookup_insert_ne by done.
    destruct (items !! j) as [y|] eqn:Hj.
    + rewrite (lookup_replace_by_id _ _ _ _ Hj). rewrite decide_False; [done|].
      intros E. apply Hjk. eapply NoDup_lookup; [exact Hnd| |].
      * by rewrite list_lookup_fmap, Hj.
      * rewrite list_lookup_fmap, Hk. simpl. congruence.
    + unfold replace_by_id. by rewrite list_lookup_fmap, Hj.
Qed.

Lemma without_id_absent i items :
  i ∉ ((λ x, id (base x)) <$> items) → without_id i items = items.
Proof.
  intros Hin. unfold without_id. induction items as [|y items IH]; [done|].
  rewrite fmap_cons in Hin. apply not_elem_of_cons in Hin as [Hy Hin].
  rewrite filter_cons_True by done. by rewrite IH.
Qed.

Lemma without_id_idemp i items : without_id i (without_id i items) = without_id i items.
Proof.
  unfold without_id. induction items as [|y items IH]; [done|].
  destruct (decide (id (base y) ≠ i)).
  - rewrite filter_cons_True by done. rewrite filter_cons_True by done. by rewrite IH.
  - by rewrite filter_cons_False by done.
Qed.

Lemma without_id_append item items :
  id (base item) ∉ ((λ x, id (base x)) <$> items) →
  without_id (id (base item)) (items ++ [item]) = items.
Proof.
  intros Hin. unfold without_id. rewrite filter_app.
  fold (without_id (id (base item)) items). rewrite without_id_absent by done.
  rewrite filter_cons_False by (by intros []). by rewrite app_nil_r.
Qed.

Lemma ids_without_id i items j :
  j ∈ ((λ x, id (base x)) <$> items) → j ≠ i →
  j ∈ ((λ x, id (base x)) <$> without_id i items).
Proof.
  intros (x & -> & Hx)%list_elem_of_fmap Hne. apply list_elem_of_fmap.
  exists x. split; [done|]. by apply without_id_spec.
Qed.

Lemma NoDup_ids_without_id i items :
  NoDup ((λ x, id (base x)) <$> items) → NoDup ((λ x, id (base x)) <$> without_id i items).
Proof.
  unfold without_id. induction items as [|y items IH]; [done|].
  rewrite fmap_cons. intros [Hy Hnd]%NoDup_cons.
  destruct (decide (id (base y) ≠ i)).
  - rewrite filter_cons_True by done. rewrite fmap_cons. apply NoDup_cons.
    split; [|apply IH; exact Hnd].
    intros (x & Hx & [_ Hin]%list_elem_of_filter)%list_elem_of_fmap.
    apply Hy. apply list_elem_of_fmap. exists x. split; [exact Hx|exact Hin].
  - rewrite filter_cons_False by done. apply IH; exact Hnd.
Qed.
End Items.

(** What each action does to the collections and to the storage. *)
Lemma activities_setCurrentView v ty st :
  activities ty (setCurrentView v st) = activities ty st.
Proof. by destruct ty. Qed.

Lemma activities_handleCloseModal ty st : activities ty (handleCloseModal st) = activities ty st.
Proof. by destruct ty. Qed.

Lemma activities_save_any I ty st :
  activities ty (save I st)
  = if decide (ty = type I) then saved (editingItem st) (activities ty st) I
    else activities ty st.
Proof.
  case_decide as E; [subst; apply activities_save|by apply activities_save_other].
Qed.

Lemma activities_handleDelete_any window_confirm i C ty st :
  activities ty (handleDelete window_confirm i C st)
  = if decide (ty = C) then
      if window_confirm confirm_message then without_id i (activities ty st)
      else activities ty st
    else activities ty st.
Proof.
  case_decide as E; [subst|by apply activities_handleDelete_other].
  destruct (window_confirm confirm_message) eqn:Hc.
  - by apply activities_handleDelete.
  - by rewrite handleDelete_declined.
Qed.

Lemma dispatch_SubmitForm st formData randomUUID :
  dispatch st (SubmitForm formData randomUUID)
  = match submitted st formData randomUUID with
    | Some item => save item st
    | None => st
    end.
Proof. unfold dispatch, submitted. by destruct (isModalOpen st). Qed.

(** The id and the category of the item a submit saves. *)
Lemma submitted_creating st formData randomUUID (item : Activity) :
  editingItem st = None → submitted st formData randomUUID = Some item →
  id item = randomUUID ∧ type item = currentView st.
Proof.
  unfold submitted. destruct (isModalOpen st); [|done]. apply create_form_submit.
Qed.

Lemma submitted_editing st (a : Activity) formData randomUUID (item : Activity) :
  editingItem st = Some a → id a ≠ "" → submitted st formData randomUUID = Some item →
  id item = id a ∧ type item = type a.
Proof.
  unfold submitted. destruct (isModalOpen st); [|done]. apply edit_form_submit.
Qed.

Lemma submitted_editing_type st (a : Activity) formData randomUUID (item : Activity) :
  editingItem st = Some a → submitted st formData randomUUID = Some item →
  type item = type a ∧ (id item = id a ∨ id item = randomUUID).
Proof.
  unfold submitted. destruct (isModalOpen st); [|done]. intros He.
  rewrite (getModalContent_editing a st He).
  destruct a as [m|b|e], formData; simpl; try discriminate; intros [= <-]; simpl;
    (split; [done|]); unfold final_id; simpl.
  - destruct (truthy (id m)); auto.
  - destruct (truthy (id b)); auto.
  - destruct (truthy (id e)); auto.
Qed.

Lemma localStorage_unchanged st a :
  (∀ d u, a ≠ SubmitForm d u) → (∀ i c, a ≠ DeleteCard i c) →
  localStorage (dispatch st a) = localStorage st
  ∧ ∀ ty, activities ty (dispatch st a) = activities ty st.
Proof.
  intros Hs Hd. destruct a as [v| |item|i c| |d u].
  - split; [done|]. intros ty. apply activities_setCurrentView.
  - split; [done|]. intros ty. apply activities_handleOpenModal.
  - split; [done|]. intros ty. apply activities_handleOpenModal.
  - by destruct (Hd i c).
  - split; [done|]. intros ty. apply activities_handleCloseModal.
  - by destruct (Hs d u).
Qed.
Lemma submitted_fields st formData randomUUID (item : Activity) :
  submitted st formData randomUUID = Some item →
  title item = f_title (FormData_fields formData)
  ∧ review item = f_review (FormData_fields formData)
  ∧ rating item = f_rating (FormData_fields formData)
  ∧ date item = f_date (FormData_fields formData).
Proof.
  unfold submitted. destruct (isModalOpen st); [|done].
  destruct ((getModalContent st).2), formData; simpl; try discriminate; by intros [= <-].
Qed.

Lemma submitted_total st formData randomUUID :
  isModalOpen st = true →
  FormData_type formData
  = match editingItem st with Some a => type a | None => currentView st end →
  is_Some (submitted st formData randomUUID).
Proof. unfold submitted. intros ->. apply Form_handleSubmit_total. Qed.


(** A load after a reload reads back what memory and storage agree on. *)
Lemma App_useEffect_in_sync st :
  in_sync st →
  App_useEffect (initial (localStorage st))
  = Some (mkState (movies st) (books st) (events st) movie false None (localStorage st)).
Proof.
  intros Hs. unfold App_useEffect, initial. simpl localStorage.
  pose proof (Hs movie) as Hm. pose proof (Hs book) as Hb. pose proof (Hs event) as He.
  rewrite collection_activities in Hm, Hb, He. simpl in Hm, Hb, He.
  rewrite Hm, Hb, He.
  rewrite (items_of_collection (movies st) Movie_of_to_json).
  rewrite (items_of_collection (books st) Book_of_to_json).
  rewrite (items_of_collection (events st) Event_of_to_json). reflexivity.
Qed.

Lemma in_sync_save I st :
  in_sync st →
  accepts (localStorage st) (STORAGE_KEY (type I))
    (stringify (collection (activities (type I) (save I st)))) = true →
  in_sync (save I st).
Proof.
  intros Hs Hacc ty. rewrite localStorage_save, load_eq.
  destruct (decide (ty = type I)) as [->|Hne].
  - rewrite activities_save in *. by apply getItems_saveItems.
  - rewrite getItems_saveItems_other by (intros E; by apply STORAGE_KEY_inj in E).
    rewrite activities_save_other by done. rewrite <- load_eq. apply Hs.
Qed.

Lemma in_sync_handleDelete window_confirm i C st :
  in_sync st →
  (window_confirm confirm_message = true →
   accepts (localStorage st) (STORAGE_KEY C)
     (stringify (collection (activities C (handleDelete window_confirm i C st)))) = true) →
  in_sync (handleDelete window_confirm i C st).
Proof.
  intros Hs Hacc. destruct (window_confirm confirm_message) eqn:Hc;
    [|by rewrite handleDelete_declined].
  specialize (Hacc eq_refl).
  intros ty. rewrite localStorage_handleDelete, load_eq by done.
  destruct (decide (ty = C)) as [->|Hne].
  - rewrite activities_handleDelete in * by done. by apply getItems_saveItems.
  - rewrite getItems_saveItems_other by (intros E; by apply STORAGE_KEY_inj in E).
    rewrite activities_handleDelete_other by done. rewrite <- load_eq. apply Hs.
Qed.

(** The storage after an action is the storage before it with the write
    of the action made, if it makes one and the storage takes it. *)
Lemma localStorage_dispatch st a :
  localStorage (dispatch st a)
  = match written st a with
    | Some (key, text) =>
        match setItem (localStorage st) key text with
        | inr ls => ls
        | inl error => localStorage st
        end
    | None => localStorage st
    end.
Proof.
  destruct a as [v| |item|i c| |d u]; try reflexivity.
  - unfold written. destruct (c confirm_message) eqn:Hc.
    + simpl dispatch. rewrite activities_handleDelete by done.
      by rewrite localStorage_handleDelete.
    + simpl. by rewrite handleDelete_declined.
  - unfold written. rewrite dispatch_SubmitForm.
    destruct (submitted st d u) as [item|]; [|done].
    by rewrite localStorage_save, activities_save.
Qed.

Lemma in_sync_dispatch st a :
  in_sync st →
  match written st a with
  | Some (key, text) => accepts (localStorage st) key text = true
  | None => True
  end →
  in_sync (dispatch st a).
Proof.
  intros Hs Hw. destruct a as [v| |item|i c| |d u].
  - intros ty. simpl. rewrite activities_setCurrentView. apply Hs.
  - intros ty. simpl. rewrite activities_handleOpenModal. apply Hs.
  - intros ty. simpl. rewrite activities_handleOpenModal. apply Hs.
  - apply in_sync_handleDelete; [done|]. intros Hc. unfold written in Hw.
    by rewrite Hc in Hw.
  - intros ty. simpl. rewrite activities_handleCloseModal. apply Hs.
  - unfold written in Hw. rewrite dispatch_SubmitForm in *.
    destruct (submitted st d u) as [item|]; [|done].
    by apply in_sync_save.
Qed.

Lemma unique_ids_dispatch st a :
  unique_ids st →
  match a with SubmitForm _ randomUUID => fresh_id st randomUUID | _ => True end →
  unique_ids (dispatch st a).
Proof.
  intros Hu Hf ty. destruct a as [v| |item|i c| |d u].
  - simpl. rewrite activities_setCurrentView. apply Hu.
  - simpl. rewrite activities_handleOpenModal. apply Hu.
  - simpl. rewrite activities_handleOpenModal. apply Hu.
  - simpl. rewrite activities_handleDelete_any.
    case_decide; [|apply Hu]. destruct (c confirm_message); [|apply Hu].
    apply (NoDup_ids_without_id (H := Activity_Item)). apply Hu.
  - simpl. rewrite activities_handleCloseModal. apply Hu.
  - rewrite dispatch_SubmitForm. destruct (submitted st d u) as [item|] eqn:Hsub; [|apply Hu].
    rewrite activities_save_any. case_decide as Hty; [|apply Hu]. subst ty.
    destruct (editingItem st) as [a|] eqn:He; simpl.
    + unfold ids. rewrite (ids_replace_by_id (H := Activity_Item)). apply Hu.
    + destruct (submitted_creating _ _ _ _ He Hsub) as [Hid _].
      destruct Hf as [_ Hfresh]. unfold ids. rewrite fmap_app. simpl.
      apply NoDup_app. split; [apply Hu|]. split; [|apply NoDup_singleton].
      intros j Hj ->%list_elem_of_singleton. apply (Hfresh (type item)).
      by rewrite <- Hid.
Qed.
End PageFacts.

(** ** The page as a whole

    Properties of the controller, the forms and the storage adapter taken
    together: what a session of the user does to the three collections and
    to the storage. *)

Module PageProperties.
Import JSON Browser Types Services Components App JSONFacts StorageFacts ControllerFacts.
Import SortTheorems FormTheorems ReloadFacts PageFacts Examples.

(** X1: what is saved under a key is what a load of that key gives, and
    a later save under the key replaces it whole: after two saves that the
    storage takes, a load gives the second value, whatever the first. *)
Theorem last_write_is_loaded (key : string) (first second : json) (ls : Storage) :
  accepts ls key (stringify first) = true →
  accepts (saveItemsToStorage key first ls) key (stringify second) = true →
  getItemsFromStorage key (saveItemsToStorage key first ls) = first
  ∧ getItemsFromStorage key (saveItemsToStorage key second (saveItemsToStorage key first ls))
    = second.
Proof. intros H1 H2. split; by apply getItems_saveItems. Qed.

Lemma last_write_is_loaded_witness :
  let ls := mkStorage ∅ 4096 false in
  accepts ls "k" (stringify (collection [dune])) = true
  ∧ getItemsFromStorage "k"
      (saveItemsToStorage "k" (JArr []) (saveItemsToStorage "k" (collection [dune]) ls))
    = JArr [].
Proof.
  intros ls.
  assert (H1 : accepts ls "k" (stringify (collection [dune])) = true) by (vm_compute; reflexivity).
  assert (H2 : accepts (saveItemsToStorage "k" (collection [dune]) ls) "k"
                 (stringify (JArr [])) = true) by (vm_compute; reflexivity).
  split; [exact H1|].
  exact (proj2 (last_write_is_loaded "k" (collection [dune]) (JArr []) ls H1 H2)).
Defined.

(** X2: a reload restores what the page held: when memory and storage
    agree, the effect of a fresh page reads the three collections back as
    they were, in stored order, with the movies in view and no modal. *)
Theorem reload_restores (st : State) :
  in_sync st →
  App_useEffect (initial (localStorage st))
  = Some (mkState (movies st) (books st) (events st) movie false None (localStorage st)).
Proof.
  apply App_useEffect_in_sync.
Qed.

Lemma reload_restores_witness :
  let st := save (AMovie dune) (listing [] None) in
  in_sync st
  ∧ App_useEffect (initial (localStorage st))
    = Some (mkState [dune] [] [] movie false None (localStorage st)).
Proof.
  intros st.
  assert (Hs : in_sync st) by (intros []; vm_compute; reflexivity).
  split; [exact Hs|]. exact (reload_restores st Hs).
Defined.

(** X3: a page whose storage cannot be read, holds nothing, or holds text
    that does not parse starts with three empty collections; nothing is
    raised and nothing is written. *)
Theorem starts_empty (ls : Storage) :
  (∀ ty, match getItem ls (STORAGE_KEY ty) with
         | inr (Some text) => JSON.parse text = None
         | _ => True
         end) →
  App_useEffect (initial ls) = Some (initial ls).
Proof.
  intros Hbad.
  assert (∀ ty, load ty ls = JArr []) as Hload.
  { intros ty. rewrite load_eq. unfold getItemsFromStorage. specialize (Hbad ty).
    destruct (getItem ls (STORAGE_KEY ty)) as [e|[text|]]; [done| |done].
    rewrite Hbad. by destruct (truthy text). }
  unfold App_useEffect, initial. simpl localStorage.
  pose proof (Hload movie) as Hm. pose proof (Hload book) as Hb.
  pose proof (Hload event) as He. simpl in Hm, Hb, He. by rewrite Hm, Hb, He.
Qed.

Lemma starts_empty_witness :
  let ls := mkStorage {[ Constants.STORAGE_KEY_MOVIES := "{oops" ]} 4096 false in
  App_useEffect (initial ls) = Some (initial ls)
  ∧ App_useEffect (initial (mkStorage ∅ 0 true)) = Some (initial (mkStorage ∅ 0 true)).
Proof.
  intros ls. split.
  - apply starts_empty. intros []; vm_compute; reflexivity.
  - apply starts_empty. intros []; exact I.
Defined.

(** X4: memory and storage stay in agreement: from a state in which they
    agree, after any run of actions each of whose writes the storage takes
    (an action that writes nothing asks nothing of the storage), a load of
    each category gives the collection the page holds, so that a reload at
    that point restores all three collections. *)
Theorem sync_kept (actions : list Action) (st : State) :
  in_sync st → writes_accepted st actions →
  in_sync (dispatch_all actions st)
  ∧ App_useEffect (initial (localStorage (dispatch_all actions st)))
    = Some (mkState (movies (dispatch_all actions st)) (books (dispatch_all actions st))
              (events (dispatch_all actions st)) movie false None
              (localStorage (dispatch_all actions st))).
Proof.
  intros Hs Hw. enough (in_sync (dispatch_all actions st)) as H
    by (split; [done|by apply App_useEffect_in_sync]).
  revert st Hs Hw. induction actions as [|a actions IH]; intros st Hs Hw; [done|].
  destruct Hw as [Hw Hws]. simpl. apply IH; [by apply in_sync_dispatch|done].
Qed.

Lemma sync_kept_witness :
  let st := mkState [dune] [] [] movie false None full_storage in
  let actions := [Navigate book; AddNew; CloseModal; Navigate movie;
                  DeleteCard "7d3c" (λ _, true)] in
  in_sync st
  ∧ writes_accepted st actions
  ∧ movies (dispatch_all actions st) = []
  ∧ in_sync (dispatch_all actions st).
Proof.
  intros st actions.
  assert (Hs : in_sync st) by (intros []; vm_compute; reflexivity).
  assert (Hw : writes_accepted st actions)
    by (repeat split; vm_compute; reflexivity).
  split; [exact Hs|]. split; [exact Hw|]. split; [reflexivity|].
  exact (proj1 (sync_kept actions st Hs Hw)).
Defined.

(** X5: a write that the storage refuses is lost without a sign: the new
    item is in the collection the page holds and the modal closes as
    usual, but the storage is as it was, and a reload brings back the
    collections as they were before the item was added. *)
Theorem refused_write_is_lost (st : State) (formData : FormData) (randomUUID : string)
    (item : Activity) :
  in_sync st → editingItem st = None →
  submitted st formData randomUUID = Some item →
  accepts (localStorage st) (STORAGE_KEY (type item))
    (stringify (collection (activities (type item) st ++ [item]))) = false →
  let st' := dispatch st (SubmitForm formData randomUUID) in
  activities (type item) st' = activities (type item) st ++ [item]
  ∧ isModalOpen st' = false
  ∧ localStorage st' = localStorage st
  ∧ App_useEffect (initial (localStorage st'))
    = Some (mkState (movies st) (books st) (events st) movie false None (localStorage st)).
Proof.
  intros Hs He Hsub Hrej st'. subst st'. rewrite dispatch_SubmitForm, Hsub.
  assert (localStorage (save item st) = localStorage st) as Hls.
  { rewrite localStorage_save, He. simpl. by apply saveItemsToStorage_rejected. }
  rewrite activities_save, He, Hls. repeat split.
  - by destruct item.
  - by apply App_useEffect_in_sync.
Qed.

Lemma refused_write_is_lost_witness :
  let st := handleOpenModal None (mkState [] [] [] movie false None (mkStorage ∅ 0 false)) in
  let st' := dispatch st (SubmitForm (MovieData new_dune) "7d3c") in
  in_sync st
  ∧ movies st' = [dune]
  ∧ App_useEffect (initial (localStorage st')) = Some (initial (mkStorage ∅ 0 false)).
Proof.
  intros st st'.
  assert (Hs : in_sync st) by (intros []; vm_compute; reflexivity).
  split; [exact Hs|]. split; [reflexivity|].
  exact (proj2 (proj2 (proj2 (refused_write_is_lost st (MovieData new_dune) "7d3c"
                                (AMovie dune) Hs eq_refl eq_refl eq_refl)))).
Defined.

(** X6: ids stay distinct: when no two records of a collection share an
    id, they still do not after any run of actions in which every submit
    of a new item is given an id that is not in use. *)
Theorem ids_stay_unique (actions : list Action) (st : State) :
  unique_ids st → fresh_ids st actions → unique_ids (dispatch_all actions st).
Proof.
  revert st. induction actions as [|a actions IH]; intros st Hu Hf; [done|].
  destruct Hf as [Hf Hfs]. simpl. apply IH; [|done].
  apply unique_ids_dispatch; [done|]. by destruct a.
Qed.

Lemma ids_stay_unique_witness :
  let actions := [AddNew; SubmitForm (MovieData new_dune) "7d3c";
                  EditCard (AMovie dune); SubmitForm (MovieData dune_revised) "ffff"] in
  unique_ids (listing [] None)
  ∧ movies (dispatch_all actions (listing [] None)) = [dune_again]
  ∧ unique_ids (dispatch_all actions (listing [] None)).
Proof.
  intros actions.
  assert (Hu : unique_ids (listing [] None)) by (intros []; constructor).
  assert (Hf : fresh_ids (listing [] None) actions).
  { repeat split; try discriminate; intros [] Hin; vm_compute in Hin;
      repeat (apply elem_of_cons in Hin as [Hin|Hin]; [discriminate Hin|]);
      by apply elem_of_nil in Hin. }
  split; [exact Hu|]. split; [reflexivity|].
  exact (ids_stay_unique actions (listing [] None) Hu Hf).
Defined.

(** X7: no action but a confirmed delete removes a record: an id that a
    collection holds is still in it after any action, unless the action is
    a delete of that id from that category that the user confirms. *)
Theorem no_record_lost (st : State) (a : Action) (ty : ActivityType) (i : string) :
  i ∈ ids (activities ty st) → ¬ deletes st a ty i →
  i ∈ ids (activities ty (dispatch st a)).
Proof.
  intros Hi Hnd. destruct a as [v| |item|j c| |d u].
  - simpl. by rewrite activities_setCurrentView.
  - simpl. by rewrite activities_handleOpenModal.
  - simpl. by rewrite activities_handleOpenModal.
  - simpl in *. rewrite activities_handleDelete_any.
    case_decide as Hty; [|done]. destruct (c confirm_message) eqn:Hc; [|done].
    apply (ids_without_id (H := Activity_Item)); [done|].
    intros ->. by apply Hnd.
  - simpl. by rewrite activities_handleCloseModal.
  - rewrite dispatch_SubmitForm. destruct (submitted st d u) as [item|]; [|done].
    rewrite activities_save_any. case_decide; [|done].
    destruct (editingItem st); simpl.
    + unfold ids. by rewrite (ids_replace_by_id (H := Activity_Item)).
    + unfold ids. rewrite fmap_app. apply elem_of_app. by left.
Qed.

Lemma no_record_lost_witness :
  let st := handleOpenModal (Some (AMovie dune)) (listing [dune; arrival] None) in
  "a04f" ∈ ids (activities movie st)
  ∧ "a04f" ∈ ids (activities movie (dispatch st (SubmitForm (MovieData dune_revised) "ffff"))).
Proof.
  intros st.
  assert (Hi : "a04f" ∈ ids (activities movie st))
    by (apply list_elem_of_further, list_elem_of_here).
  split; [exact Hi|].
  apply (no_record_lost st (SubmitForm (MovieData dune_revised) "ffff") movie "a04f" Hi).
  intros [].
Defined.

(** X8: adding a new item: after the add button and a submit of the form
    of the view, the collection of the view is the old one with one item
    appended, which has the id that was generated and the fields of the
    form; this is so even when an item was left in the edit slot before.
    The other collections are as they were and the modal is closed. *)
Theorem create_flow (st : State) (formData : FormData) (randomUUID : string) :
  FormData_type formData = currentView st →
  let st' := dispatch_all [AddNew; SubmitForm formData randomUUID] st in
  ∃ item : Activity,
    activities (currentView st) st' = activities (currentView st) st ++ [item]
    ∧ Activity_base item
      = mkBase randomUUID (f_title (FormData_fields formData))
          (f_review (FormData_fields formData)) (f_rating (FormData_fields formData))
          (f_date (FormData_fields formData))
    ∧ type item = currentView st
    ∧ (∀ ty, ty ≠ currentView st → activities ty st' = activities ty st)
    ∧ isModalOpen st' = false ∧ editingItem st' = None.
Proof.
  intros Hty st'. subst st'.
  change (dispatch_all [AddNew; SubmitForm formData randomUUID] st)
    with (dispatch (dispatch st AddNew) (SubmitForm formData randomUUID)).
  set (st1 := dispatch st AddNew). rewrite dispatch_SubmitForm.
  destruct (submitted_total st1 formData randomUUID eq_refl Hty) as [item Hsub].
  rewrite Hsub. exists item.
  destruct (submitted_creating st1 _ _ _ eq_refl Hsub) as [Hid Hit].
  destruct (submitted_fields st1 _ _ _ Hsub) as (Ht & Hr & Hn & Hd).
  change (currentView st1) with (currentView st) in Hit. rewrite <- Hit.
  split; [|split; [|split; [done|split]]].
  - rewrite activities_save. unfold st1. simpl. by rewrite activities_handleOpenModal.
  - destruct (Activity_base item). simpl in *. by subst.
  - intros ty Hne. rewrite activities_save_other by done.
    unfold st1. simpl. by rewrite activities_handleOpenModal.
  - by destruct item.
Qed.

Lemma create_flow_witness :
  let st := listing [arrival] (Some (AMovie arrival)) in
  FormData_type (MovieData new_dune) = currentView st
  ∧ movies (dispatch_all [AddNew; SubmitForm (MovieData new_dune) "7d3c"] st)
    = [arrival; dune].
Proof.
  intros st. split; [reflexivity|].
  destruct (create_flow st (MovieData new_dune) "7d3c" eq_refl) as (item & _).
  reflexivity.
Defined.

(** X9: editing an item: after the edit button of an item that its
    collection holds at some place, and a submit of the form of the item's
    category, the collection has at that place an item with the same id and
    category and the fields of the form, and is otherwise as it was; the
    other collections are as they were, whichever category is in view. *)
Theorem edit_flow (st : State) (a : Activity) (k : nat) (formData : FormData)
    (randomUUID : string) :
  unique_ids st → activities (type a) st !! k = Some a → id a ≠ "" →
  FormData_type formData = type a →
  let st' := dispatch_all [EditCard a; SubmitForm formData randomUUID] st in
  ∃ item : Activity,
    activities (type a) st' = <[k := item]> (activities (type a) st)
    ∧ Activity_base item
      = mkBase (id a) (f_title (FormData_fields formData))
          (f_review (FormData_fields formData)) (f_rating (FormData_fields formData))
          (f_date (FormData_fields formData))
    ∧ type item = type a
    ∧ (∀ ty, ty ≠ type a → activities ty st' = activities ty st)
    ∧ isModalOpen st' = false ∧ editingItem st' = None.
Proof.
  intros Hu Hk Hid Hty st'. subst st'.
  change (dispatch_all [EditCard a; SubmitForm formData randomUUID] st)
    with (dispatch (dispatch st (EditCard a)) (SubmitForm formData randomUUID)).
  set (st1 := dispatch st (EditCard a)). rewrite dispatch_SubmitForm.
  destruct (submitted_total st1 formData randomUUID eq_refl Hty) as [item Hsub].
  rewrite Hsub. exists item.
  destruct (submitted_editing st1 a _ _ _ eq_refl Hid Hsub) as [Hii Hit].
  destruct (submitted_fields st1 _ _ _ Hsub) as (Ht & Hr & Hn & Hd).
  rewrite <- Hit. split; [|split; [|split; [done|split]]].
  - rewrite activities_save. unfold st1. simpl. rewrite activities_handleOpenModal.
    rewrite Hit.
    apply (replace_by_id_insert (H := Activity_Item) item _ k a); [apply Hu|done|].
    symmetry. exact Hii.
  - destruct (Activity_base item). simpl in *. by subst.
  - intros ty Hne. rewrite activities_save_other by done.
    unfold st1. simpl. by rewrite activities_handleOpenModal.
  - by destruct item.
Qed.

Lemma edit_flow_witness :
  let st := mkState [arrival; dune] [] [] book false None empty_storage in
  unique_ids st
  ∧ movies (dispatch_all [EditCard (AMovie dune); SubmitForm (MovieData dune_revised) "ffff"] st)
    = [arrival; dune_again].
Proof.
  intros st.
  assert (Hu : unique_ids st).
  { intros []; simpl; [|constructor..]. apply NoDup_cons. split; [|apply NoDup_singleton].
    intros Hin%list_elem_of_singleton. discriminate Hin. }
  split; [exact Hu|].
  destruct (edit_flow st (AMovie dune) 1 (MovieData dune_revised) "ffff" Hu eq_refl
              ltac:(discriminate) eq_refl) as (item & _).
  reflexivity.
Defined.

(** X10: an edit of an item that is gone is dropped: when the item in the
    edit slot has an id that no record of its category carries, a submit
    of the edit form leaves all three collections as they were; the item
    submitted is in none of them, and the modal closes as after any
    save. *)
Theorem stale_edit_dropped (st : State) (a : Activity) (formData : FormData)
    (randomUUID : string) :
  editingItem st = Some a → id a ∉ ids (activities (type a) st) →
  randomUUID ∉ ids (activities (type a) st) →
  let st' := dispatch st (SubmitForm formData randomUUID) in
  (∀ ty, activities ty st' = activities ty st)
  ∧ (is_Some (submitted st formData randomUUID) → isModalOpen st' = false).
Proof.
  intros He Hid Hu st'. subst st'. rewrite dispatch_SubmitForm.
  destruct (submitted st formData randomUUID) as [item|] eqn:Hsub; [|by split; [|intros []]].
  split; [|intros _; by destruct item].
  intros ty. rewrite activities_save_any. case_decide as Hty; [|done]. subst ty.
  rewrite He. simpl. destruct (submitted_editing_type st a _ _ _ He Hsub) as [Hit Hii].
  apply (replace_by_id_absent (H := Activity_Item)). rewrite Hit. intros Hin.
  destruct Hii as [E|E]; [apply Hid|apply Hu]; rewrite <- E; exact Hin.
Qed.

Lemma stale_edit_dropped_witness :
  let actions := [EditCard (AMovie dune); DeleteCard "7d3c" (λ _, true);
                  SubmitForm (MovieData dune_revised) "ffff"] in
  activities movie (dispatch_all actions (listing [dune; arrival] None)) = [AMovie arrival].
Proof.
  intros actions.
  pose (st := dispatch_all [EditCard (AMovie dune); DeleteCard "7d3c" (λ _, true)]
                (listing [dune; arrival] None)).
  assert (H1 : id (AMovie dune) ∉ ids (activities (type (AMovie dune)) st)).
  { intros Hin%list_elem_of_singleton. discriminate Hin. }
  assert (H2 : "ffff" ∉ ids (activities (type (AMovie dune)) st)).
  { intros Hin%list_elem_of_singleton. discriminate Hin. }
  destruct (stale_edit_dropped st (AMovie dune) (MovieData dune_revised) "ffff" eq_refl H1 H2)
    as [Hsame _].
  etrans; [exact (Hsame movie)|reflexivity].
Defined.

(** X11: adding an item and deleting it again: after the add button, a
    submit with a fresh id and a confirmed delete of that id from the same
    view, all three collections are as they were before. *)
Theorem create_then_delete (st : State) (formData : FormData) (randomUUID : string)
    (window_confirm : string → bool) :
  randomUUID ∉ ids (activities (currentView st) st) →
  window_confirm confirm_message = true →
  ∀ ty, activities ty
          (dispatch_all [AddNew; SubmitForm formData randomUUID;
                         DeleteCard randomUUID window_confirm] st)
        = activities ty st.
Proof.
  intros Hfresh Hc ty.
  change (dispatch_all [AddNew; SubmitForm formData randomUUID;
                        DeleteCard randomUUID window_confirm] st)
    with (dispatch (dispatch (dispatch st AddNew) (SubmitForm formData randomUUID))
            (DeleteCard randomUUID window_confirm)).
  set (st1 := dispatch st AddNew).
  assert (∀ ty, activities ty st1 = activities ty st) as H1
    by (intros ?; apply activities_handleOpenModal).
  rewrite dispatch_SubmitForm.
  destruct (submitted st1 formData randomUUID) as [item|] eqn:Hsub.
  - destruct (submitted_creating st1 _ _ _ eq_refl Hsub) as [Hid Hit].
    change (currentView st1) with (currentView st) in Hit.
    simpl dispatch. replace (currentView (save item st1)) with (currentView st)
      by (by destruct item).
    rewrite activities_handleDelete_any. rewrite Hc.
    case_decide as Hty.
    + subst ty. rewrite <- Hit, activities_save. simpl. rewrite H1, <- Hid.
      apply (without_id_append (H := Activity_Item)). intros Hin. apply Hfresh.
      rewrite <- Hit, <- Hid. exact Hin.
    + rewrite activities_save_other by congruence. apply H1.
  - simpl dispatch. change (currentView st1) with (currentView st).
    rewrite activities_handleDelete_any, Hc. case_decide as Hty; [|apply H1].
    subst ty. rewrite H1. by apply (without_id_absent (H := Activity_Item)).
Qed.

Lemma create_then_delete_witness :
  let st := listing [arrival] None in
  ("7d3c" ∉ ids (activities (currentView st) st))
  ∧ activities movie (dispatch_all [AddNew; SubmitForm (MovieData new_dune) "7d3c";
                                    DeleteCard "7d3c" (λ _, true)] st)
    = [AMovie arrival].
Proof.
  intros st.
  assert (Hf : "7d3c" ∉ ids (activities (currentView st) st)).
  { intros Hin%list_elem_of_singleton. discriminate Hin. }
  split; [exact Hf|].
  exact (create_then_delete st (MovieData new_dune) "7d3c" (λ _, true) Hf eq_refl movie).
Defined.

(** X12: deleting what is not there, and deleting twice: a confirmed
    delete of an id that no record of the category carries leaves the
    collection as it is, and a second confirmed delete of the same id
    leaves it as the first one made it. *)
Theorem delete_again (window_confirm : string → bool) (i : string) (ty : ActivityType)
    (st : State) :
  window_confirm confirm_message = true →
  (i ∉ ids (activities ty st) →
     activities ty (handleDelete window_confirm i ty st) = activities ty st)
  ∧ activities ty (handleDelete window_confirm i ty (handleDelete window_confirm i ty st))
    = activities ty (handleDelete window_confirm i ty st)
  ∧ i ∉ ids (activities ty (handleDelete window_confirm i ty st)).
Proof.
  intros Hc. rewrite !activities_handleDelete by done. split; [|split].
  - apply (without_id_absent (H := Activity_Item)).
  - apply (without_id_idemp (H := Activity_Item)).
  - intros (x & Hx & [_ Hne]%(without_id_spec (H := Activity_Item)))%list_elem_of_fmap.
    by apply Hne.
Qed.

Lemma delete_again_witness :
  let yes := λ _ : string, true in
  activities movie (handleDelete yes "none" movie (listing [dune] None)) = [AMovie dune]
  ∧ activities movie (handleDelete yes "7d3c" movie
                        (handleDelete yes "7d3c" movie (listing [dune; arrival] None)))
    = [AMovie arrival].
Proof.
  intros yes.
  assert (Hno : "none" ∉ ids (activities movie (listing [dune] None))).
  { intros Hin%list_elem_of_singleton. discriminate Hin. }
  split.
  - exact (proj1 (delete_again yes "none" movie (listing [dune] None) eq_refl) Hno).
  - etrans; [exact (proj1 (proj2 (delete_again yes "7d3c" movie
                                    (listing [dune; arrival] None) eq_refl)))|reflexivity].
Defined.

(** X13: the listing shows the collection of the view, all of it and
    nothing else, whatever the dates are: the note that nothing is logged
    is shown exactly when that collection is empty; otherwise there is one
    card for each of its records, each of the category in view. *)
Theorem listing_shows_collection (st : State) :
  match renderContent st with
  | NothingLogged view => view = currentView st ∧ activities (currentView st) st = []
  | Grid view cards =>
      view = currentView st
      ∧ cards ≡ₚ activities (currentView st) st
      ∧ activities (currentView st) st ≠ []
      ∧ ∀ a, a ∈ cards → type a = currentView st
  end.
Proof.
  unfold renderContent. pose proof (Array_sort_Permutation sortFn
    (activities (currentView st) st)) as Hp. rewrite <- sortedItems_eq in Hp.
  destruct (Nat.eqb_spec (length (sortedItems st)) 0) as [H0|Hn0].
  - split; [done|]. apply nil_length_inv in H0. rewrite H0 in Hp.
    by apply Permutation_nil_l in Hp.
  - split; [done|]. split; [done|]. split.
    + intros E. rewrite E in Hp. apply Permutation_nil_r in Hp. by rewrite Hp in Hn0.
    + intros a Ha. rewrite Hp in Ha. destruct (currentView st); simpl in Ha;
        apply list_elem_of_fmap in Ha as (? & -> & _); done.
Qed.

End PageProperties.

(** ** The forms and the cards *)

Module FormProperties.
Import JSON Browser Types Services Components App JSONFacts StorageFacts ControllerFacts.
Import SortTheorems FormTheorems ReloadFacts PageFacts Examples.

(** The stars are the numbers from one to five. *)
Lemma stars_eq : stars = [1; 2; 3; 4; 5].
Proof. reflexivity. Qed.

Lemma rating_BaseFields_on e f :
  0 ≤ f_rating f ≤ 5 → 0 ≤ f_rating (BaseFields_on e f) ≤ 5.
Proof.
  intros Hr. destruct e as [v|v|v|k]; simpl; try done.
  rewrite stars_eq. do 5 (destruct k as [|k]; [simpl; lia|]). done.
Qed.

Lemma rating_FormData_on formData e :
  0 ≤ f_rating (FormData_fields formData) ≤ 5 →
  0 ≤ f_rating (FormData_fields (FormData_on formData e)) ≤ 5.
Proof.
  intros Hr. destruct formData as [d|d|d], e as [e|r|v|v|v]; simpl; try done;
    by apply rating_BaseFields_on.
Qed.

Lemma rating_Form_formData st today :
  match editingItem st with Some a => 0 ≤ rating a ≤ 5 | None => True end →
  0 ≤ f_rating (FormData_fields (Form_formData (getModalContent st).2 today)) ≤ 5.
Proof.
  unfold getModalContent. destruct (editingItem st) as [[m|b|e]|]; simpl; try done.
  intros _. destruct (currentView st); simpl; lia.
Qed.

Lemma isModalOpen_save I st : isModalOpen (save I st) = false.
Proof. by destruct I. Qed.

Lemma elem_of_saved (slot : option Activity) (items : list Activity) (item x : Activity) :
  x ∈ saved slot items item → x = item ∨ x ∈ items.
Proof.
  destruct slot as [e|]; simpl.
  - unfold replace_by_id. intros (y & -> & Hy)%list_elem_of_fmap.
    case_decide; [by left|by right].
  - intros [Hx| ->%list_elem_of_singleton]%elem_of_app; [by right|by left].
Qed.

Lemma type_activities ty st k (a : Activity) : activities ty st !! k = Some a → type a = ty.
Proof.
  destruct ty; simpl; rewrite list_lookup_fmap;
    destruct (_ !! k); simpl; intros [= <-]; reflexivity.
Qed.

Lemma Button_onClick_rated st b a :
  Button_onClick st b = Some a →
  (∀ d u, a ≠ SubmitForm d u)
  ∧ isModalOpen (dispatch st a)
    = match a with
      | AddNew | EditCard _ => true
      | CloseModal => false
      | _ => isModalOpen st
      end
  ∧ (all_rated st → all_rated (dispatch st a))
  ∧ (all_rated st →
     ∀ x, editingItem (dispatch st a) = Some x →
          rated x
          ∨ (editingItem st = Some x ∧ isModalOpen (dispatch st a) = isModalOpen st)).
Proof.
  destruct b as [v| |k|k c|]; unfold Button_onClick.
  - intros [= <-]. split; [done|]. split; [done|]. split; [|by auto].
    intros Hr ty x. change (dispatch st (Navigate v)) with (setCurrentView v st).
    rewrite activities_setCurrentView. apply Hr.
  - intros [= <-]. split; [done|]. split; [done|]. split; [|done].
    intros Hr ty x. change (dispatch st AddNew) with (handleOpenModal None st).
    rewrite activities_handleOpenModal. apply Hr.
  - destruct (activities (currentView st) st !! k) as [item|] eqn:Hk; [|done].
    intros [= <-]. split; [done|]. split; [done|]. split.
    + intros Hr ty x.
      change (dispatch st (EditCard item)) with (handleOpenModal (Some item) st).
      rewrite activities_handleOpenModal. apply Hr.
    + intros Hr x [= <-]. left. apply (Hr (currentView st)).
      by eapply list_elem_of_lookup_2.
  - destruct (activities (currentView st) st !! k) as [item|] eqn:Hk; [|done].
    intros [= <-]. split; [done|].
    change (dispatch st (DeleteCard (id item) c))
      with (handleDelete c (id item) (currentView st) st).
    split; [|split].
    + unfold handleDelete. destruct (c confirm_message); [|done].
      by destruct (currentView st).
    + intros Hr ty x. rewrite activities_handleDelete_any.
      case_decide; [|apply Hr]. destruct (c confirm_message); [|apply Hr].
      intros [_ Hx]%list_elem_of_filter. by apply (Hr ty).
    + intros _ x Hx. right. revert Hx. unfold handleDelete.
      destruct (c confirm_message); [|done]. by destruct (currentView st).
  - intros [= <-]. split; [done|]. split; [done|]. split; [|done].
    intros Hr ty x. change (dispatch st CloseModal) with (handleCloseModal st).
    rewrite activities_handleCloseModal. apply Hr.
Qed.

(** Whatever the user does keeps the ratings in range. *)
Lemma Page_rated_on p e : Page_rated p → Page_rated (Page_on p e).
Proof.
  intros [Hr Hf]. destruct e as [b today|e|u]; unfold Page_on.
  - destruct (Button_onClick (app p) b) as [a|] eqn:Hb; [|done].
    destruct (Button_onClick_rated _ _ _ Hb) as (Hns & Ho & Hr' & He').
    split; [by apply Hr'|]. cbn [app formData]. unfold rendered.
    destruct (isModalOpen (dispatch (app p) a)) eqn:Ho'; [|done].
    assert (∀ x, editingItem (dispatch (app p) a) = Some x → rated x) as Hedit.
    { intros x Hx. destruct (He' Hr x Hx) as [|[Hx' Hsame]]; [done|].
      destruct (formData p) as [d|].
      - destruct Hf as (_ & _ & He). by apply He.
      - congruence. }
    assert (0 ≤ f_rating (FormData_fields
                            (Form_formData (getModalContent (dispatch (app p) a)).2 today))
            ≤ 5) as Hfresh.
    { apply rating_Form_formData.
      destruct (editingItem (dispatch (app p) a)) as [x|] eqn:Hx; [|done].
      by apply Hedit. }
    destruct (formData p) as [d|]; [|done].
    destruct Hf as (_ & Hd & _). by case_decide.
  - split; [done|]. cbn [app formData]. destruct (formData p) as [d|]; [|done].
    cbn [fmap option_fmap option_map].
    destruct Hf as (Ho & Hd & He). split; [done|]. split; [|done].
    by apply rating_FormData_on.
  - destruct (formData p) as [d|] eqn:Hd; [|by split; [|rewrite Hd]].
    destruct Hf as (Ho & Hdr & He). rewrite dispatch_SubmitForm.
    destruct (submitted (app p) d u) as [item|] eqn:Hsub.
    + unfold Page_rated. cbn [app formData]. rewrite isModalOpen_save.
      split; [|done].
      intros ty x. rewrite activities_save_any. case_decide; [|apply Hr].
      intros [->|Hx]%elem_of_saved; [|by apply (Hr ty)].
      unfold rated. by destruct (submitted_fields _ _ _ _ Hsub) as (_ & _ & -> & _).
    + unfold Page_rated. cbn [app formData]. rewrite Ho. done.
Qed.

(** X14: the rating stays between zero and five.  A new item starts at
    zero, the stars of a form only ever set one to five, no other input
    touches the rating, and a form is filled from a record of the page or
    keeps what it held: from a page with the modal closed on which every
    record has a rating in that range, whatever the user then does, every
    record and the mounted form, if there is one, still have. *)
Theorem rating_in_range (events : list PageEvent) (st : State) :
  isModalOpen st = false → all_rated st →
  let p := Page_run events (closed st) in
  all_rated (app p)
  ∧ ∀ d, formData p = Some d → 0 ≤ f_rating (FormData_fields d) ≤ 5.
Proof.
  intros Ho Hr p.
  assert (Page_rated p) as [Hr' Hf].
  { unfold p. assert (Page_rated (closed st)) as H by (by split).
    revert H. generalize (closed st).
    induction events as [|e events IH]; intros q Hq; [done|].
    simpl. apply IH. by apply Page_rated_on. }
  split; [done|]. intros d Hd. rewrite Hd in Hf. tauto.
Qed.

Lemma rating_in_range_witness :
  let st := listing [dune] None in
  let events := [Press AddButton "2024-03-01"; Input (Field (TitleChange "Tenet"));
                 Input (Field (ReviewChange "Backwards.")); Input (Field (StarClick 3));
                 Input (Field (StarClick 9)); Submit "c9e1"] in
  all_rated st
  ∧ movies (app (Page_run events (closed st)))
    = [dune; mkMovie (mkBase "c9e1" "Tenet" "Backwards." 4 "2024-03-01") "" None 0]
  ∧ all_rated (app (Page_run events (closed st))).
Proof.
  intros st events.
  assert (Hr : all_rated st).
  { intros [] a Hin; simpl in Hin; [|by apply elem_of_nil in Hin..].
    apply list_elem_of_singleton in Hin as ->. unfold rated. simpl. lia. }
  split; [exact Hr|]. split; [reflexivity|].
  exact (proj1 (rating_in_range events st eq_refl Hr)).
Defined.

Lemma replace_by_id_same `{Item T} (item : T) (items : list T) :
  NoDup ((λ x, id (base x)) <$> items) → item ∈ items → replace_by_id item items = items.
Proof.
  intros Hnd (k & Hk)%list_elem_of_lookup_1.
  rewrite (replace_by_id_insert item items k item Hnd Hk eq_refl).
  by apply list_insert_id.
Qed.

Lemma submitted_unchanged st (a : Activity) today randomUUID :
  isModalOpen st = true → editingItem st = Some a → id a ≠ "" →
  submitted st (Form_formData (getModalContent st).2 today) randomUUID = Some a.
Proof.
  intros Ho He Hid. unfold submitted. rewrite Ho.
  rewrite (getModalContent_editing a st He). apply truthy_nonempty in Hid.
  destruct a as [[[] ? ? ?]|[[] ? ?]|[[] ?]]; simpl in *;
    unfold MovieForm_handleSubmit, BookForm_handleSubmit, EventForm_handleSubmit,
      final_base, final_id; simpl; by rewrite Hid.
Qed.

(** X15: an edit that changes nothing.  From a page with the modal
    closed and distinct ids, the edit button of a card followed by a submit
    of the form with its inputs untouched leaves all three collections what
    they were; the modal is closed again and the form gone. *)
Theorem edit_without_change (st : State) (a : Activity) (k : nat)
    (today randomUUID : string) :
  isModalOpen st = false → unique_ids st →
  activities (currentView st) st !! k = Some a → id a ≠ "" →
  let p := Page_run [Press (EditButton k) today; Submit randomUUID] (closed st) in
  (∀ ty, activities ty (app p) = activities ty st)
  ∧ isModalOpen (app p) = false
  ∧ formData p = None.
Proof.
  intros Ho Hu Hk Hid p. unfold p.
  set (st1 := handleOpenModal (Some a) st).
  change (Page_run [Press (EditButton k) today; Submit randomUUID] (closed st))
    with (Page_on (Page_on (closed st) (Press (EditButton k) today)) (Submit randomUUID)).
  assert (Page_on (closed st) (Press (EditButton k) today)
          = mkPage st1 (Some (Form_formData (getModalContent st1).2 today))) as ->.
  { unfold Page_on, closed, Button_onClick. cbn [app formData]. rewrite Hk. reflexivity. }
  assert (submitted st1 (Form_formData (getModalContent st1).2 today) randomUUID = Some a)
    as Hsub by (by apply submitted_unchanged).
  unfold Page_on. cbn [app formData]. rewrite dispatch_SubmitForm, Hsub.
  cbn [app formData]. rewrite isModalOpen_save. split; [|done].
  intros ty. rewrite activities_save_any. unfold st1.
  rewrite activities_handleOpenModal. case_decide as Hty; [|done]. subst ty. simpl.
  apply (replace_by_id_same (H := Activity_Item)); [apply Hu|].
  rewrite (type_activities _ _ _ _ Hk). by eapply list_elem_of_lookup_2.
Qed.

Lemma edit_without_change_witness :
  let st := listing [arrival; dune] None in
  let p := Page_run [Press (EditButton 1) "2025-01-01"; Submit "ffff"] (closed st) in
  unique_ids st
  ∧ activities movie (app p) = [AMovie arrival; AMovie dune].
Proof.
  intros st p.
  assert (Hu : unique_ids st).
  { intros []; simpl; [|constructor..]. apply NoDup_cons. split; [|apply NoDup_singleton].
    intros Hin%list_elem_of_singleton. discriminate Hin. }
  split; [exact Hu|].
  exact (proj1 (edit_without_change st (AMovie dune) 1 "2025-01-01" "ffff" eq_refl Hu
                  eq_refl ltac:(discriminate)) movie).
Defined.

(** A form left open keeps its fields.  With the edit form of [arrival]
    open, the edit button of [dune] changes the item being edited but not
    the fields of the form, and a submit overwrites [dune] with the fields
    of [arrival]; the add button likewise leaves the fields, and a submit
    then appends a copy of [arrival] under the new id. *)
Example form_left_open :
  let st := listing [arrival; dune] None in
  movies (app (Page_run [Press (EditButton 0) "2025-01-01";
                         Press (EditButton 1) "2025-01-01"; Submit "ffff"] (closed st)))
  = [arrival; mkMovie (mkBase "7d3c" "Arrival" "Circles." 5 "2023-11-20") "2016" None 0]
  ∧ movies (app (Page_run [Press (EditButton 0) "2025-01-01";
                           Press AddButton "2025-01-01"; Submit "ffff"] (closed st)))
    = [arrival; dune;
       mkMovie (mkBase "ffff" "Arrival" "Circles." 5 "2023-11-20") "2016" None 0].
Proof. split; reflexivity. Qed.

Lemma same_input_refl a : same_input a a.
Proof. by destruct a. Qed.

Lemma same_input_select a b r : same_input a b → same_input (FormData_on a (SelectMovie r)) b.
Proof. by destruct a, b. Qed.

Lemma same_input_on a b e :
  is_select e = false → same_input a b → same_input (FormData_on a e) (FormData_on b e).
Proof.
  intros He. destruct a as [d|d|d], b as [d'|d'|d']; simpl; try done.
  - intros (Hr & Hg & Hd). destruct e as [[v|v|v|k]| | | |]; simpl in *; try done.
    destruct (stars !! k); simpl; done.
  - intros ->. apply same_input_refl.
  - intros ->. apply same_input_refl.
Qed.

Lemma same_input_foldl events : ∀ a b,
  same_input a b → same_input (foldl FormData_on a events) (foldl FormData_on b (typed events)).
Proof.
  induction events as [|e events IH]; intros a b Hab; [done|].
  unfold typed. simpl foldl. destruct (is_select e) eqn:He.
  - rewrite filter_cons_False by (by rewrite He). apply IH.
    destruct e; try done. by apply same_input_select.
  - rewrite filter_cons_True by done. simpl. apply IH. by apply same_input_on.
Qed.

Lemma same_input_fields a b :
  same_input a b →
  f_review (FormData_fields a) = f_review (FormData_fields b)
  ∧ f_rating (FormData_fields a) = f_rating (FormData_fields b)
  ∧ f_date (FormData_fields a) = f_date (FormData_fields b).
Proof. destruct a, b; simpl; try done; by intros ->. Qed.

(** X16: selecting candidates of the search touches nothing the user has
    entered but the title.  Whatever the form held when the inputs began,
    the review, the rating and the date of the submitted item are what
    they would be had no candidate been selected, and a book or an event
    is the same item altogether. *)
Theorem select_keeps_input (st : State) (formData : FormData) (events : list FormEvent)
    (randomUUID : string) (item : Activity) :
  submitted st (filled_in formData events) randomUUID = Some item →
  ∃ item', submitted st (filled_in formData (typed events)) randomUUID = Some item'
    ∧ id item' = id item ∧ review item' = review item ∧ rating item' = rating item
    ∧ date item' = date item
    ∧ (type item ≠ movie → item' = item).
Proof.
  unfold submitted, filled_in. destruct (isModalOpen st); [|done].
  pose proof (same_input_foldl events _ _ (same_input_refl formData)) as Hs.
  destruct (getModalContent st).2 as [i|i|i];
    destruct (foldl _ _ events) as [d|d|d]; simpl; try done;
    destruct (foldl _ _ (typed events)) as [d'|d'|d']; simpl in Hs; try done;
    intros [= <-]; eexists; (split; [reflexivity|]); simpl.
  - destruct Hs as (-> & -> & ->). done.
  - by subst d'.
  - by subst d'.
Qed.

Lemma select_keeps_input_witness :
  let st := dispatch (listing [] None) AddNew in
  let r := mkResult 438631 "Dune" (Some "2021-09-15") (Some "/d5.jpg") in
  let events := [Field (ReviewChange "Vast."); SelectMovie r; Field (StarClick 4)] in
  let formData := Form_formData (getModalContent st).2 "2025-01-01" in
  ∃ item', submitted st (filled_in formData (typed events)) "7d3c" = Some item'
    ∧ review item' = "Vast." ∧ rating item' = 5.
Proof.
  intros st r events formData.
  destruct (select_keeps_input st formData events "7d3c"
              (AMovie (mkMovie (mkBase "7d3c" "Dune" "Vast." 5 "2025-01-01") "2021"
                         (Some "/d5.jpg") 438631)) eq_refl)
    as (item' & H & _ & Hr & Hg & _).
  exists item'. split; [exact H|]. split; [exact Hr|exact Hg].
Defined.

Lemma length_substring_le n : ∀ s, (String.length (substring 0 n s) ≤ n)%nat.
Proof.
  induction n as [|n IH]; intros [|c s]; simpl; try lia. specialize (IH s). lia.
Qed.

Lemma last_selected_snoc events e :
  last_selected (events ++ [e])
  = match selected e with Some r => Some r | None => last_selected events end.
Proof.
  unfold last_selected. rewrite omap_app. simpl. destruct (selected e); simpl.
  - by rewrite last_snoc.
  - by rewrite app_nil_r.
Qed.

Lemma link_foldl events : ∀ d0,
  link (foldl FormData_on (MovieData d0) events)
  = Some match last_selected events with
         | Some r => (release_year r, poster_path r, result_id r)
         | None => (f_releaseYear d0, f_posterPath d0, f_tmdbId d0)
         end.
Proof.
  induction events as [|e events IH] using rev_ind; intros d0; [done|].
  rewrite foldl_app, last_selected_snoc. simpl. specialize (IH d0).
  destruct (foldl FormData_on (MovieData d0) events) as [d| |]; try done.
  simpl in IH. destruct e as [f|r| | |]; simpl; try done.
Qed.

Lemma Page_run_inputs inputs : ∀ st d,
  foldl Page_on (mkPage st (Some d)) (Input <$> inputs)
  = mkPage st (Some (foldl FormData_on d inputs)).
Proof.
  induction inputs as [|e inputs IH]; intros st d; [done|]. simpl. apply IH.
Qed.

Lemma MovieForm_mounted st i :
  (getModalContent st).2 = MovieForm i → i = as_Movie (editingItem st).
Proof.
  unfold getModalContent. destruct (editingItem st) as [[| |]|]; simpl.
  1-3: by intros [= <-]. destruct (currentView st); simpl; by intros [= <-].
Qed.

(** X17: what links a logged movie to the catalogue.  A movie form is
    opened from a page with the modal closed, its inputs are used and it
    is submitted.  The release year, the poster and the TMDB id of the
    movie handed to the save handler are those of the candidate selected
    last, the year being the first four characters of its release date, or
    empty when it has none; with no candidate selected they are those of
    the movie the form was opened on, and for a new movie the empty year,
    no poster and the id 0.  No other input changes them. *)
Theorem movie_link (st : State) (b : Button) (today : string) (d0 : MovieFormData)
    (inputs : list FormEvent) (randomUUID : string) :
  isModalOpen st = false →
  let p1 := Page_on (closed st) (Press b today) in
  formData p1 = Some (MovieData d0) →
  let p := Page_run ((Input <$> inputs) ++ [Submit randomUUID]) p1 in
  ∃ m : Movie,
    app p = save (AMovie m) (app p1)
    ∧ (releaseYear m, posterPath m, tmdbId m)
      = match last_selected inputs with
        | Some r => (release_year r, poster_path r, result_id r)
        | None =>
            match as_Movie (editingItem (app p1)) with
            | Some a => (releaseYear a, posterPath a, tmdbId a)
            | None => ("", None, 0)
            end
        end
    ∧ (last_selected inputs ≠ None → String.length (releaseYear m) ≤ 4)%nat.
Proof.
  intros Ho p1 Hd0 p. unfold p. clear p.
  assert (∃ st1, p1 = mkPage st1 (Some (MovieData d0))
                 ∧ isModalOpen st1 = true
                 ∧ (getModalContent st1).2 = MovieForm (as_Movie (editingItem st1))
                 ∧ d0 = MovieForm_formData (as_Movie (editingItem st1)) today)
    as (st1 & Hp1 & Ho1 & Hform & ->).
  { unfold p1 in *. unfold Page_on, closed in *. cbn [app formData] in *.
    destruct (Button_onClick st b) as [a|]; [|done]. cbn [formData] in Hd0.
    unfold rendered in *. destruct (isModalOpen (dispatch st a)) eqn:Ho1; [|done].
    exists (dispatch st a).
    destruct (getModalContent (dispatch st a)).2 as [i|i|i] eqn:Hform;
      simpl in Hd0; [|done..].
    injection Hd0 as <-. apply MovieForm_mounted in Hform as Hi. subst i. done. }
  clearbody p1. subst p1. cbn [app].
  unfold Page_run. rewrite foldl_app, Page_run_inputs. cbn [foldl].
  pose proof (link_foldl inputs (MovieForm_formData (as_Movie (editingItem st1)) today))
    as Hl.
  destruct (foldl FormData_on _ inputs) as [d| |]; [|done..].
  simpl in Hl. injection Hl as Hl.
  unfold Page_on. cbn [app formData]. rewrite dispatch_SubmitForm. unfold submitted.
  rewrite Ho1, Hform. cbn [Form_handleSubmit app].
  exists (MovieForm_handleSubmit (as_Movie (editingItem st1)) d randomUUID).
  split; [done|]. unfold MovieForm_handleSubmit. simpl.
  destruct (last_selected inputs) as [r|].
  - split; [exact Hl|]. intros _. injection Hl as -> _ _.
    unfold release_year. destruct (release_date r) as [d'|]; simpl; [|lia].
    pose proof (length_substring_le 4 d'). destruct (truthy _); simpl; lia.
  - split; [|done]. etrans; [exact Hl|]. by destruct (as_Movie (editingItem st1)).
Qed.

Lemma movie_link_witness :
  let st := listing [] None in
  let r := mkResult 438631 "Dune" (Some "2021-09-15") (Some "/d5.jpg") in
  let inputs := [Field (ReviewChange "Vast."); SelectMovie r; Field (StarClick 4)] in
  let p1 := Page_on (closed st) (Press AddButton "2025-01-01") in
  let p := Page_run ((Input <$> inputs) ++ [Submit "7d3c"]) p1 in
  formData p1 = Some (MovieData (mkMovieFormData (mkFields "" "" 0 "2025-01-01") "" None 0))
  ∧ last_selected inputs = Some r
  ∧ ∃ m : Movie,
      app p = save (AMovie m) (app p1)
      ∧ (releaseYear m, posterPath m, tmdbId m) = ("2021", Some "/d5.jpg", 438631).
Proof.
  intros st r inputs p1 p.
  assert (H : formData p1
              = Some (MovieData (mkMovieFormData (mkFields "" "" 0 "2025-01-01") "" None 0)))
    by reflexivity.
  split; [exact H|]. split; [reflexivity|].
  destruct (movie_link st AddButton "2025-01-01" _ inputs "7d3c" eq_refl H)
    as (m & Hm & Hl & _).
  exists m. split; [exact Hm|]. etrans; [exact Hl|reflexivity].
Defined.

Lemma stars_hover_readOnly events : foldl (StarRating_on true) 0 events = 0.
Proof. induction events as [|[s|] events IH]; simpl; done. Qed.

Lemma filled_stars_length hover rating :
  Z.of_nat (length (filled_stars hover rating))
  = Z.max 0 (Z.min 5 (hover_or_rating hover rating)).
Proof.
  unfold filled_stars, filled. generalize (hover_or_rating hover rating) as r. intros r.
  rewrite stars_eq.
  repeat match goal with
         | |- context [filter _ (?x :: _)] =>
             destruct (Z.leb_spec x r);
             [rewrite filter_cons_True by (apply Z.leb_le; lia)
             |rewrite filter_cons_False by (rewrite Z.leb_le; lia)]
         end; rewrite ?filter_nil; simpl length; lia.
Qed.

(** X18: the stars of a card.  A card shows its rating read-only: whatever
    the mouse does over the stars, none of them calls a handler on a click,
    and the stars drawn filled are the first [rating] of the five, none for
    a rating below 1 and all five for a rating above 5. *)
Theorem card_stars (rating : Z) (events : list StarEvent) (setRating : bool)
    (starIndex : Z) :
  let hover := foldl (StarRating_on true) 0 events in
  StarRating_onClick true setRating starIndex = None
  ∧ filled_stars hover rating = filter (λ s, s ≤ rating) stars
  ∧ Z.of_nat (length (filled_stars hover rating)) = Z.max 0 (Z.min 5 rating).
Proof.
  intros hover. unfold hover. rewrite stars_hover_readOnly. split; [done|]. split.
  - unfold filled_stars, filled, hover_or_rating. simpl.
    apply list_filter_iff. intros s. by rewrite Z.leb_le.
  - by rewrite filled_stars_length.
Qed.

(** X19: in a form the stars follow the mouse.  While a star is hovered,
    the stars up to it are drawn filled, whatever rating is set; once the
    mouse has left, the stars up to the rating are. *)
Theorem form_stars (rating starIndex : Z) (events : list StarEvent) :
  starIndex ∈ stars →
  let hover := foldl (StarRating_on false) 0 events in
  filled_stars (StarRating_on false hover (MouseEnter starIndex)) rating
  = filter (λ s, s ≤ starIndex) stars
  ∧ filled_stars (StarRating_on false hover MouseLeave) rating
    = filter (λ s, s ≤ rating) stars.
Proof.
  intros Hin hover. simpl. unfold filled_stars, filled, hover_or_rating. split.
  - assert (starIndex ≠ 0) as Hz.
    { intros ->. rewrite stars_eq in Hin. apply list_elem_of_In in Hin. simpl in Hin.
      intuition discriminate. }
    apply Z.eqb_neq in Hz. unfold StarRating_onMouseEnter. simpl. rewrite Hz.
    apply list_filter_iff. intros s. by rewrite Z.leb_le.
  - unfold StarRating_onMouseLeave. simpl. apply list_filter_iff. intros s.
    by rewrite Z.leb_le.
Qed.

Lemma form_stars_witness :
  3 ∈ stars
  ∧ filled_stars (StarRating_on false 0 (MouseEnter 3)) 5 = [1; 2; 3].
Proof.
  assert (H : 3 ∈ stars) by (rewrite stars_eq; do 2 apply list_elem_of_further; apply list_elem_of_here).
  split; [exact H|].
  etrans; [exact (proj1 (form_stars 5 3 [] H))|reflexivity].
Defined.

Lemma substring_all n : ∀ s, (String.length s ≤ n)%nat → substring 0 n s = s.
Proof.
  induction n as [|n IH]; intros [|c s]; simpl; try done; [lia|].
  intros Hl. f_equal. apply IH. lia.
Qed.

Lemma length_substring n : ∀ s, (n ≤ String.length s)%nat → String.length (substring 0 n s) = n.
Proof.
  induction n as [|n IH]; intros [|c s]; simpl; try done; [lia|].
  intros Hl. f_equal. apply IH. lia.
Qed.

Lemma substring_prefix n : ∀ s, String.prefix (substring 0 n s) s = true.
Proof.
  induction n as [|n IH]; intros [|c s]; simpl; try done.
  rewrite IH. by destruct (ascii_dec c c).
Qed.

(** X20: the review on a card.  A review that fits the limit of the card
    is shown whole; a longer one is cut to the limit and followed by three
    dots, so that the text of a card is never longer than the limit plus
    three, and its part before the dots starts the review. *)
Theorem card_review (limit : nat) (review : string) :
  ((String.length review ≤ limit)%nat → preview limit review = review)
  ∧ ((limit < String.length review)%nat →
       preview limit review = substring 0 limit review +:+ "..."
       ∧ String.length (preview limit review) = (limit + 3)%nat
       ∧ String.prefix (substring 0 limit review) review = true)
  ∧ (String.length (preview limit review) ≤ limit + 3)%nat.
Proof.
  unfold preview. destruct (Nat.ltb_spec limit (String.length review)) as [Hl|Hl].
  - rewrite length_app, length_substring by lia. simpl.
    split; [lia|]. split; [|lia]. intros _. split; [done|]. split; [done|].
    apply substring_prefix.
  - rewrite substring_all by done.
    rewrite app_empty_r.
    split; [done|]. split; lia.
Qed.
End FormProperties.

(** ** The search of the movie form *)

Module SearchProperties.
Import JSON Browser Types Services Components App JSONFacts StorageFacts.
Import ServicesTheorems Examples.

Lemma HEXDIG_unreserved n : (n < 16)%N → uri_unreserved (HEXDIG n) = true.
Proof.
  intros Hn. destruct n as [|p]; [reflexivity|].
  do 4 (try destruct p as [p|p|]); try reflexivity; lia.
Qed.

Lemma percent_safe c x :
  x ∈ list_ascii_of_string (percent c) → uri_unreserved x = true ∨ x = "%"%char.
Proof.
  pose proof (N_ascii_bounded c) as Hb. unfold percent. simpl.
  intros Hin. apply list_elem_of_In in Hin. simpl in Hin.
  destruct Hin as [<-|[<-|[<-|[]]]]; [by right|left..]; apply HEXDIG_unreserved.
  - apply N.Div0.div_lt_upper_bound. lia.
  - apply N.mod_lt. lia.
Qed.

Lemma list_ascii_of_string_app s t :
  list_ascii_of_string (s +:+ t) = list_ascii_of_string s ++ list_ascii_of_string t.
Proof. induction s as [|c s IH]; [done|]. rewrite app_cons. simpl. by rewrite IH. Qed.

Lemma encodeURIComponent_safe : ∀ s q x,
  encodeURIComponent s = inr q →
  x ∈ list_ascii_of_string q → uri_unreserved x = true ∨ x = "%"%char.
Proof.
  induction s as [|c r IH]; intros q x; simpl.
  - intros [= <-]. simpl. by intros ?%elem_of_nil.
  - destruct (uri_unreserved c) eqn:Hc.
    + destruct (encodeURIComponent r) as [e|e]; [done|]. intros [= <-]. simpl.
      intros [->|Hin]%elem_of_cons; [by left|]. by apply (IH e).
    + destruct (match r with String d _ => is_surrogate_lead c d | EmptyString => false end);
        [done|].
      destruct (encodeURIComponent r) as [e|e]; [done|]. intros [= <-].
      rewrite list_ascii_of_string_app. intros [Hin|Hin]%elem_of_app.
      * by apply (percent_safe c).
      * by apply (IH e).
Qed.

(** X21: the query cannot reach beyond its parameter.  Every request of
    a search goes to the search URL with the encoded query as the last
    parameter, and the encoded query holds nothing but unreserved
    characters and percent signs: no [&], [=], [#], [?], [/] or blank of
    the query gets into the URL as it is. *)
Theorem query_stays_in_parameter (key : string) (net : Network) (query url : string) :
  url ∈ (settle (searchMovies key net query)).1 →
  ∃ q, url = search_url key q
    ∧ encodeURIComponent query = inr q
    ∧ (∀ x, x ∈ list_ascii_of_string q → uri_unreserved x = true ∨ x = "%"%char)
    ∧ ∀ x, x ∈ ["&"; "="; "#"; "?"; "/"; " "]%char → x ∉ list_ascii_of_string q.
Proof.
  rewrite searchMovies_settle.
  destruct (negb (truthy query) || _); [by intros ?%elem_of_nil|].
  destruct (encodeURIComponent query) as [e|q] eqn:He; [by intros ?%elem_of_nil|].
  simpl. intros ->%list_elem_of_singleton. exists q. split; [done|]. split; [done|].
  split; [intros x; by apply encodeURIComponent_safe with query|].
  intros x Hx Hin. destruct (encodeURIComponent_safe query q x He Hin) as [Hu| ->].
  - apply list_elem_of_In in Hx. simpl in Hx.
    repeat (destruct Hx as [<-|Hx]; [discriminate Hu|]). done.
  - apply list_elem_of_In in Hx. simpl in Hx.
    repeat (destruct Hx as [Hx|Hx]; [discriminate Hx|]). done.
Qed.

Lemma query_stays_in_parameter_witness :
  let net : Network := λ _, Response true "{}" in
  search_url "k" "a%26b%3D%20c" ∈ (settle (searchMovies "k" net "a&b= c")).1
  ∧ ∃ q, search_url "k" "a%26b%3D%20c" = search_url "k" q
      ∧ "&"%char ∉ list_ascii_of_string q.
Proof.
  intros net.
  assert (H : search_url "k" "a%26b%3D%20c" ∈ (settle (searchMovies "k" net "a&b= c")).1)
    by apply list_elem_of_here.
  split; [exact H|].
  destruct (query_stays_in_parameter "k" net "a&b= c" _ H) as (q & Hq & _ & _ & Hn).
  exists q. split; [exact Hq|]. apply Hn, list_elem_of_here.
Defined.

Lemma search_round_settled v query r :
  query ≠ "" →
  search_round (inr v) query r = mkResults v false (pending r).
Proof.
  intros Hq. unfold search_round, search_effect, search_settles.
  destruct query as [|c query]; [done|]. simpl.
  rewrite list_lookup_middle by done.
  f_equal. by rewrite delete_middle, app_nil_r.
Qed.

(** X22: the candidates of a successful search.  When the response is ok
    and its body has a list under [results], then once the search has
    settled the form holds exactly that list as its candidates, in the
    order of the response, the spinner is off, and the searches that were
    pending before still are. *)
Theorem candidates_listed (key : string) (net : Network) (query q body : string)
    (data : json) (l : list json) (r : Results) :
  query ≠ "" → key ≠ Constants.TMDB_API_KEY →
  encodeURIComponent query = inr q →
  net (search_url key q) = Response true body →
  JSON.parse body = Some data →
  get_property data "results" = inr (val (JArr l)) →
  let r' := search_round (settle (searchMovies key net query)).2 query r in
  searchResults r' = val (JArr l)
  ∧ searchResults_length (searchResults r') = inr (val (JNum (Z.of_nat (length l))))
  ∧ isLoading r' = false
  ∧ pending r' = pending r.
Proof.
  intros Hq Hk He Hn Hp Hg r'. unfold r'. rewrite searchMovies_settle.
  assert (negb (truthy query) || String.eqb key "YOUR_TMDB_API_KEY_HERE" = false) as ->.
  { apply not_true_is_false. rewrite search_guard. tauto. }
  rewrite He, Hn, Hp, Hg. cbn [snd]. by rewrite search_round_settled.
Qed.

Lemma candidates_listed_witness :
  let body := stringify (JObj [("results", JArr [JObj [("id", JNum 438631)]])]) in
  let r' := search_round (settle (searchMovies "k" (λ _, Response true body) "dune")).2
              "dune" (mkResults (val (JArr [])) false []) in
  searchResults r' = val (JArr [JObj [("id", JNum 438631)]]) ∧ isLoading r' = false.
Proof.
  intros body r'.
  destruct (candidates_listed "k" (λ _, Response true body) "dune" "dune" body
              (JObj [("results", JArr [JObj [("id", JNum 438631)]])])
              [JObj [("id", JNum 438631)]] (mkResults (val (JArr [])) false [])
              ltac:(discriminate) ltac:(discriminate) eq_refl eq_refl
              (parse_stringify _) eq_refl) as (H1 & _ & H2 & _).
  split; [exact H1|exact H2].
Defined.

(** X23: an ok response without results breaks the form.  When the body
    of an ok response parses to a value with no [results] property, the
    search settles to [undefined], the form takes that as its candidates,
    and the next render, which reads their [length], throws. *)
Theorem missing_results_break_render (key : string) (net : Network)
    (query q body : string) (data : json) (r : Results) :
  query ≠ "" → key ≠ Constants.TMDB_API_KEY →
  encodeURIComponent query = inr q →
  net (search_url key q) = Response true body →
  JSON.parse body = Some data →
  get_property data "results" = inr undefined →
  let r' := search_round (settle (searchMovies key net query)).2 query r in
  searchResults r' = undefined
  ∧ searchResults_length (searchResults r') = inl TypeError.
Proof.
  intros Hq Hk He Hn Hp Hg r'. unfold r'. rewrite searchMovies_settle.
  assert (negb (truthy query) || String.eqb key "YOUR_TMDB_API_KEY_HERE" = false) as ->.
  { apply not_true_is_false. rewrite search_guard. tauto. }
  rewrite He, Hn, Hp, Hg. cbn [snd]. by rewrite search_round_settled.
Qed.

Lemma missing_results_break_render_witness :
  let r' := search_round (settle (searchMovies "k" (λ _, Response true "{}") "dune")).2
              "dune" (mkResults (val (JArr [])) false []) in
  searchResults_length (searchResults r') = inl TypeError.
Proof.
  intros r'.
  exact (proj2 (missing_results_break_render "k" (λ _, Response true "{}") "dune" "dune"
                  "{}" (JObj []) (mkResults (val (JArr [])) false [])
                  ltac:(discriminate) ltac:(discriminate) eq_refl eq_refl eq_refl eq_refl)).
Defined.

(** X24: answers are shown in the order they arrive.  When a second
    search is started while a first is still pending, and the second
    settles first, the form shows the candidates of the second search with
    the spinner off although the first is still pending; when the first
    then settles, its candidates replace those of the later query. *)
Theorem late_answer_wins (q1 q2 : string) (old new : value) (r : Results) :
  q1 ≠ "" → q2 ≠ "" → pending r = [] →
  let r2 := search_effect q2 (search_effect q1 r) in
  let r3 := search_settles 1 new r2 in
  let r4 := search_settles 0 old r3 in
  pending r2 = [q1; q2]
  ∧ r3 = mkResults new false [q1]
  ∧ r4 = mkResults old false [].
Proof.
  intros H1 H2 Hp r2 r3 r4. unfold r4, r3, r2, search_effect, search_settles.
  destruct q1 as [|c1 q1]; [done|]. destruct q2 as [|c2 q2]; [done|].
  simpl. rewrite Hp. done.
Qed.

Lemma late_answer_wins_witness :
  let r := mkResults (val (JArr [])) false [] in
  search_settles 0 (val (JArr [JStr "du"]))
    (search_settles 1 (val (JArr [JStr "dune"])) (search_effect "dune" (search_effect "du" r)))
  = mkResults (val (JArr [JStr "du"])) false [].
Proof.
  intros r.
  exact (proj2 (proj2 (late_answer_wins "du" "dune" (val (JArr [JStr "du"]))
                         (val (JArr [JStr "dune"])) r
                         ltac:(discriminate) ltac:(discriminate) eq_refl))).
Defined.

End SearchProperties.

Module DebounceProperties.
Import Types Services Components Examples DebounceTheorems.

Lemma settled_or_pending_mount delay : settled_or_pending delay [] (mount delay).
Proof.
  split; [done|]. split; [by left|]. by intros q ?%elem_of_nil.
Qed.

Lemma settled_or_pending_mono delay typed typed' s :
  typed ⊆ typed' → settled_or_pending delay typed s → settled_or_pending delay typed' s.
Proof.
  intros Hsub (H1 & H2 & H3). split; [done|]. split.
  - destruct H2 as [?|?]; [by left|right; by apply Hsub].
  - intros q Hq. destruct (H3 q Hq). split; [done|by apply Hsub].
Qed.

Lemma settled_or_pending_change delay typed v s :
  settled_or_pending delay typed s →
  settled_or_pending delay (typed ++ [v]) (setSearchQuery delay v s).
Proof.
  intros H. unfold setSearchQuery. case_decide as Hv.
  - apply settled_or_pending_mono with typed; [|done]. by apply sublist_subseteq, sublist_inserts_r.
  - destruct H as (H1 & H2 & H3). split; [done|]. split.
    + right. simpl. apply elem_of_app. right. apply list_elem_of_here.
    + intros q Hq. destruct (H3 q Hq). split; [done|]. apply elem_of_app. by left.
Qed.

Lemma settled_or_pending_elapse delay typed dt s :
  settled_or_pending delay typed s → settled_or_pending delay typed (elapse dt s).
Proof.
  intros (H1 & H2 & H3). unfold elapse.
  destruct (handler s) as [[remaining v]|] eqn:Hh;
    [|split; [by rewrite Hh|done]].
  destruct H1 as [-> Hr].
  destruct (Nat.leb_spec remaining dt).
  - unfold timeout, setDebouncedValue. simpl. case_decide as Hv; simpl.
    + done.
    + split; [done|]. split; [done|]. unfold search.
      intros q. destruct (truthy (searchQuery s)) eqn:Ht; [|apply H3].
      intros [Hq| ->%list_elem_of_singleton]%elem_of_app; [by apply H3|].
      destruct H2 as [E|?]; [by rewrite E in Ht|]. split; [|done].
      intros E. by rewrite E in Ht.
  - simpl. split; [split; [done|lia]|done].
Qed.

Lemma settled_or_pending_run delay es : ∀ typed s,
  settled_or_pending delay typed s →
  settled_or_pending delay (typed ++ changes es) (run delay es s).
Proof.
  induction es as [|[v|dt] es IH]; intros typed s H.
  - simpl. by rewrite app_nil_r.
  - change (run delay (Change v :: es) s) with (run delay es (setSearchQuery delay v s)).
    change (changes (Change v :: es)) with ([v] ++ changes es).
    rewrite (assoc_L (++) typed [v]).
    apply IH. by apply settled_or_pending_change.
  - change (run delay (Elapse dt :: es) s) with (run delay es (elapse dt s)).
    change (changes (Elapse dt :: es)) with (changes es).
    apply IH. by apply settled_or_pending_elapse.
Qed.

(** X25: the debounce catches up.  Whatever was typed and however long
    the pauses were, once the field has been left alone for the delay the
    debounced value is the text of the field and no timeout is pending. *)
Theorem debounce_catches_up (delay : nat) (es : list SearchEvent) (dt : nat) :
  (delay ≤ dt)%nat →
  let s := run delay (es ++ [Elapse dt]) (mount delay) in
  debouncedValue s = searchQuery s ∧ handler s = None
  ∧ searchQuery s = searchQuery (run delay es (mount delay)).
Proof.
  intros Hdt s. unfold s. rewrite run_app. simpl.
  destruct (settled_or_pending_run delay es [] _ (settled_or_pending_mount delay))
    as (H1 & _ & _).
  unfold elapse. destruct (handler (run delay es (mount delay))) as [[remaining v]|] eqn:Hh.
  - destruct H1 as [-> Hr]. destruct (Nat.leb_spec remaining dt); [|lia].
    unfold timeout, setDebouncedValue. simpl. by case_decide.
  - done.
Qed.

Lemma debounce_catches_up_witness :
  let s := run 500 ([Change "d"; Elapse 700; Change "du"; Elapse 100; Change "d"]
                    ++ [Elapse 500]) (mount 500) in
  debouncedValue s = "d" ∧ handler s = None.
Proof.
  intros s.
  destruct (debounce_catches_up 500
              [Change "d"; Elapse 700; Change "du"; Elapse 100; Change "d"] 500
              ltac:(lia)) as (H1 & H2 & H3).
  split; [|exact H2].
  etrans; [exact H1|]. etrans; [exact H3|reflexivity].
Defined.

(** X26: what gets searched.  From the mount of the form on, every query
    handed to the search client is a text the search field was changed to
    at some point, and never the empty text. *)
Theorem searched_was_typed (delay : nat) (es : list SearchEvent) (q : string) :
  q ∈ searched (run delay es (mount delay)) → q ≠ "" ∧ Change q ∈ es.
Proof.
  intros Hq.
  destruct (settled_or_pending_run delay es [] _ (settled_or_pending_mount delay))
    as (_ & _ & H3).
  destruct (H3 q Hq) as [Hne Hin]. split; [done|].
  simpl in Hin. unfold changes in Hin. apply list_elem_of_omap in Hin as (e & He & Hv).
  destruct e as [v|dt]; [|done]. by injection Hv as ->.
Qed.

Lemma searched_was_typed_witness :
  "dune" ∈ searched (run 500 [Change "dune"; Elapse 500] (mount 500))
  ∧ Change "dune" ∈ [Change "dune"; Elapse 500].
Proof.
  assert (H : "dune" ∈ searched (run 500 [Change "dune"; Elapse 500] (mount 500)))
    by apply list_elem_of_here.
  split; [exact H|].
  exact (proj2 (searched_was_typed 500 [Change "dune"; Elapse 500] "dune" H)).
Defined.

End DebounceProperties.
